(** * database/init_db.py: the SQLite initialiser of simple-to-do-list

    A shallow embedding of [src/database/init_db.py] and the properties
    of its four parts: the location resolver
    ([_parse_db_path_from_connection_file] and the fallback in [main]),
    the schema reconciler ([_ensure_schema]), the configuration writer
    ([_write_connection_file], [_ensure_visualizer_env]) and the reporter
    (the statistics and [print] calls of [main]).

    The script talks to three pieces of the Python runtime, each modelled
    here as far as the script exercises it:
    - text files opened with [encoding="utf-8"] (strict UTF-8, universal
      newlines on reading);
    - [re.search] with [re.MULTILINE], as a backtracking matcher;
    - [pathlib.Path] on POSIX and the [sqlite3] statements the script
      issues. *)

From Stdlib Require Import NArith ZArith Ascii String DecimalString Lia.
From Stdlib.Strings Require Import Byte.
From stdpp Require Import gmap list strings.

Set Default Proof Using "Type".
Local Open Scope N_scope.

(** ** Python strings *)

(** A Python [str] is a sequence of Unicode code points. *)
Definition char := N.
Definition str := list char.

(** The code points of an ASCII literal of the source. *)
Definition lit (s : string) : str := map N_of_ascii (list_ascii_of_string s).
#[global] Arguments lit : simpl never.

Definition LF : char := 10.
Definition CR : char := 13.
Definition SLASH : char := 47.

(** [Py_UNICODE_ISSPACE]: the white space of [str.strip], [str.isspace]
    and of [\s] in a [str] pattern. *)
Definition isspace (c : char) : bool :=
  ((9 <=? c) && (c <=? 13)) || ((28 <=? c) && (c <=? 32))
  || (c =? 133) || (c =? 160) || (c =? 5760)
  || ((8192 <=? c) && (c <=? 8202))
  || (c =? 8232) || (c =? 8233) || (c =? 8239) || (c =? 8287) || (c =? 12288).

Fixpoint lstrip (s : str) : str :=
  match s with
  | c :: s' => if isspace c then lstrip s' else s
  | [] => []
  end.

Definition rstrip (s : str) : str := rev (lstrip (rev s)).

(** [s.strip()] *)
Definition strip (s : str) : str := rstrip (lstrip s).

(** [sep.join(xs)] *)
Fixpoint join (sep : str) (xs : list str) : str :=
  match xs with
  | [] => []
  | [x] => x
  | x :: xs' => x ++ sep ++ join sep xs'
  end.

(** [s.split(sep)] for a one-character separator: never the empty list. *)
Fixpoint split (sep : char) (s : str) : list str :=
  match s with
  | [] => [[]]
  | c :: s' =>
      if c =? sep then [] :: split sep s'
      else match split sep s' with
           | h :: t => (c :: h) :: t
           | [] => [[c]]
           end
  end.

Definition str_eqb (a b : str) : bool := bool_decide (a = b).

(** [str(n)] for a non-negative integer. *)
Definition str_of_N (n : N) : str := lit (NilZero.string_of_uint (N.to_uint n)).

(** ** Exceptions *)

Inductive exn :=
| UnicodeDecodeError
| UnicodeEncodeError
| OSError
| sqlite3_Error.

Definition result (A : Type) : Type := exn + A.

(** ** UTF-8, strict, as the codec of [open(..., encoding="utf-8")] *)

Definition bytes := list byte.

Definition byte_of (n : N) : byte :=
  match Byte.of_N n with
  | Some b => b
  | None => x00
  end.

(** The encoding of one code point; a surrogate cannot be encoded. *)
Definition utf8_encode_char (c : char) : option (list N) :=
  if c <? 128 then Some [c]
  else if c <? 2048 then Some [192 + c / 64; 128 + c mod 64]
  else if c <? 65536 then
    if (55296 <=? c) && (c <? 57344) then None
    else Some [224 + c / 4096; 128 + (c / 64) mod 64; 128 + c mod 64]
  else if c <? 1114112 then
    Some [240 + c / 262144; 128 + (c / 4096) mod 64;
          128 + (c / 64) mod 64; 128 + c mod 64]
  else None.

(** [s.encode("utf-8")]: [None] stands for [UnicodeEncodeError]. *)
Fixpoint utf8_encode (s : str) : option bytes :=
  match s with
  | [] => Some []
  | c :: s' =>
      match utf8_encode_char c, utf8_encode s' with
      | Some bs, Some rest => Some (map byte_of bs ++ rest)
      | _, _ => None
      end
  end.

Definition is_cont (b : N) : bool := (128 <=? b) && (b <? 192).
Definition in_range (lo hi b : N) : bool := (lo <=? b) && (b <=? hi).

(** [b.decode("utf-8")]: [None] stands for [UnicodeDecodeError].  Overlong
    forms, surrogates, code points above U+10FFFF and truncated sequences
    are all rejected. *)
Fixpoint utf8_decode (bs : bytes) : option str :=
  match bs with
  | [] => Some []
  | b0 :: r0 =>
      let n0 := Byte.to_N b0 in
      if n0 <? 128 then cons n0 <$> utf8_decode r0
      else if in_range 194 223 n0 then
        match r0 with
        | b1 :: r1 =>
            let n1 := Byte.to_N b1 in
            if is_cont n1
            then cons ((n0 - 192) * 64 + (n1 - 128)) <$> utf8_decode r1
            else None
        | _ => None
        end
      else if in_range 224 239 n0 then
        match r0 with
        | b1 :: b2 :: r2 =>
            let n1 := Byte.to_N b1 in
            let n2 := Byte.to_N b2 in
            if in_range (if n0 =? 224 then 160 else 128)
                        (if n0 =? 237 then 159 else 191) n1
               && is_cont n2
            then cons ((n0 - 224) * 4096 + (n1 - 128) * 64 + (n2 - 128))
                   <$> utf8_decode r2
            else None
        | _ => None
        end
      else if in_range 240 244 n0 then
        match r0 with
        | b1 :: b2 :: b3 :: r3 =>
            let n1 := Byte.to_N b1 in
            let n2 := Byte.to_N b2 in
            let n3 := Byte.to_N b3 in
            if in_range (if n0 =? 240 then 144 else 128)
                        (if n0 =? 244 then 143 else 191) n1
               && is_cont n2 && is_cont n3
            then cons ((n0 - 240) * 262144 + (n1 - 128) * 4096
                       + (n2 - 128) * 64 + (n3 - 128))
                   <$> utf8_decode r3
            else None
        | _ => None
        end
      else None
  end.

(** ** Text files *)

(** Reading in text mode with the default [newline=None]: a lone carriage
    return and a carriage return followed by a line feed both arrive as
    one line feed. *)
Fixpoint universal_newlines (s : str) : str :=
  match s with
  | [] => []
  | c :: s' =>
      if c =? CR then
        match s' with
        | c' :: s'' =>
            if c' =? LF then LF :: universal_newlines s''
            else LF :: universal_newlines s'
        | [] => [LF]
        end
      else c :: universal_newlines s'
  end.

(** A file of the working directory: whether [open(path, "r")] succeeds
    on it (else it raises [OSError]) and the bytes it holds.  A path at
    which [os.path.exists] is false is [None]. *)
Record file := mk_file { readable : bool; data : bytes }.

Definition file_state := option file.

(** [f.read()] on a file opened with [open(path, "r", encoding="utf-8")]. *)
Definition read_text (b : bytes) : result str :=
  match utf8_decode b with
  | Some s => inr (universal_newlines s)
  | None => inl UnicodeDecodeError
  end.

(** ** [re]: the fragment used by the script *)

(** Pattern items.  Repetition is only ever applied to a character class
    in the script's pattern, and there is one capture group. *)
Inductive re_item :=
| RBol                          (* [^] under [re.MULTILINE] *)
| REol                          (* [$] under [re.MULTILINE] *)
| RLit (c : char)               (* a literal character *)
| RStar (cls : char -> bool)    (* greedy [cls*] *)
| RPlus (cls : char -> bool)    (* greedy [cls+] *)
| ROpen                         (* [(] of group 1 *)
| RClose.                       (* [)] of group 1 *)

Definition regex := list re_item.

(** [.] without [re.DOTALL]: anything but a line feed. *)
Definition dot (c : char) : bool := negb (c =? LF).

Definition at_bol (prev : option char) : bool :=
  match prev with
  | None => true
  | Some c => c =? LF
  end.

Definition at_eol (s : str) : bool :=
  match s with
  | [] => true
  | c :: _ => c =? LF
  end.

(** Greedy repetition of a class: the longest run first, then, on failure
    of the continuation, one character less at a time. *)
Fixpoint greedy {R : Type} (cls : char -> bool)
    (k : option char -> str -> option R) (prev : option char) (s : str)
    : option R :=
  match s with
  | c :: s' =>
      if cls c then
        match greedy cls k (Some c) s' with
        | Some r => Some r
        | None => k prev s
        end
      else k prev s
  | [] => k prev s
  end.

(** Match the pattern at the current position.  [prev] is the character
    before the position, [opened] the input left when group 1 was opened,
    [cap] the text of group 1 once closed.  The result is group 1. *)
Fixpoint re_match (p : regex) (prev : option char) (s : str)
    (opened cap : str) : option str :=
  match p with
  | [] => Some cap
  | RBol :: p' => if at_bol prev then re_match p' prev s opened cap else None
  | REol :: p' => if at_eol s then re_match p' prev s opened cap else None
  | RLit c :: p' =>
      match s with
      | c' :: s' => if c' =? c then re_match p' (Some c') s' opened cap else None
      | [] => None
      end
  | RStar cls :: p' =>
      greedy cls (fun prev' s' => re_match p' prev' s' opened cap) prev s
  | RPlus cls :: p' =>
      match s with
      | c :: s' =>
          if cls c
          then greedy cls (fun prev' s' => re_match p' prev' s' opened cap) (Some c) s'
          else None
      | [] => None
      end
  | ROpen :: p' => re_match p' prev s s cap
  | RClose :: p' =>
      re_match p' prev s opened (take (length opened - length s)%nat opened)
  end.

Fixpoint re_search_from (p : regex) (prev : option char) (s : str) : option str :=
  match re_match p prev s [] [] with
  | Some cap => Some cap
  | None =>
      match s with
      | [] => None
      | c :: s' => re_search_from p (Some c) s'
      end
  end.

(** [re.search(p, s, flags=re.MULTILINE)], then [.group(1)] of the match:
    the leftmost position at which the pattern matches wins. *)
Definition re_search (p : regex) (s : str) : option str := re_search_from p None s.

(** ** [pathlib.Path] on POSIX *)

(** A path in the normal form [pathlib] keeps: the root ([""], ["/"] or
    ["//"]) and the components, none of them empty or ["."]. *)
Record Path := mkPath { root : str; parts : list str }.

(** One leading slash or three and more make the root ["/"]; exactly two
    make it ["//"]. *)
Definition parse_root (s : str) : str :=
  match s with
  | c1 :: s1 =>
      if c1 =? SLASH then
        match s1 with
        | c2 :: s2 =>
            if c2 =? SLASH then
              match s2 with
              | c3 :: _ => if c3 =? SLASH then [SLASH] else [SLASH; SLASH]
              | [] => [SLASH; SLASH]
              end
            else [SLASH]
        | [] => [SLASH]
        end
      else []
  | [] => []
  end.

Definition is_component (x : str) : Prop := x ≠ [] ∧ x ≠ lit ".".

#[local] Instance is_component_dec x : Decision (is_component x).
Proof. unfold is_component. apply _. Defined.

(** [Path(s)] *)
Definition Path_of_str (s : str) : Path :=
  {| root := parse_root s; parts := filter is_component (split SLASH s) |}.

(** [str(p)] *)
Definition Path_str (p : Path) : str :=
  match root p, parts p with
  | [], [] => lit "."
  | r, ps => r ++ join [SLASH] ps
  end.

(** [p.name] *)
Definition Path_name (p : Path) : str := default [] (last (parts p)).

(** [p.parent] *)
Definition Path_parent (p : Path) : Path :=
  {| root := root p; parts := removelast (parts p) |}.

(** [p.is_absolute()] *)
Definition is_absolute (p : Path) : bool := negb (str_eqb (root p) []).

(** [p / s] *)
Definition joinpath (p : Path) (s : str) : Path :=
  let q := Path_of_str s in
  if is_absolute q then q
  else {| root := root p; parts := parts p ++ parts q |}.

(** Lexical removal of [".."]: the components seen so far are kept in
    reverse, and [".."] at the root stays at the root. *)
Fixpoint collapse (seen : list str) (ps : list str) : list str :=
  match ps with
  | [] => rev seen
  | x :: ps' =>
      if str_eqb x (lit "..") then collapse (tail seen) ps'
      else collapse (x :: seen) ps'
  end.

(** [p.resolve()] on a file system without symbolic links, in the working
    directory [cwd] (the value of [os.getcwd()], an absolute path). *)
Definition resolve (cwd : str) (p : Path) : Path :=
  if is_absolute p then
    {| root := [SLASH]; parts := collapse [] (parts p) |}
  else
    let c := Path_of_str cwd in
    {| root := root c; parts := collapse [] (parts c ++ parts p) |}.

(** ** The database file and the [sqlite3] statements of the script *)

(** Rows of [app_info]: [id INTEGER PRIMARY KEY AUTOINCREMENT],
    [key TEXT UNIQUE NOT NULL], [value TEXT], [created_at TIMESTAMP]. *)
Record app_info_row := mk_app_info_row {
  ai_id : Z;
  ai_key : str;
  ai_value : option str;
  ai_created_at : str
}.

(** Rows of [todos]. *)
Record todos_row := mk_todos_row {
  td_id : Z;
  td_title : str;
  td_completed : Z;
  td_created_at : str;
  td_updated_at : str
}.

(** A database file.  A table that does not exist is [None]; its rows are
    kept in rowid order.  [app_info_key_unique] tells whether the table
    [app_info] of the file carries the [UNIQUE] constraint on [key]: the
    table the script creates does, a table of the same columns made by
    other hands may not, and [CREATE TABLE IF NOT EXISTS] leaves such a
    table as it is.  [app_info_seq] is the [sqlite_sequence] entry of
    [app_info] (0 when there is none); [other_tables] are the names of the
    remaining entries of [sqlite_master] of type table, which the script
    only counts. *)
Record Database := mk_Database {
  app_info : option (list app_info_row);
  app_info_key_unique : bool;
  app_info_seq : Z;
  todos : option (list todos_row);
  idx_todos_completed : bool;
  other_tables : list str;
  journal_wal : bool
}.

(** The file [sqlite3.connect] creates when there is none. *)
Definition empty_db : Database :=
  {| app_info := None; app_info_key_unique := true; app_info_seq := 0; todos := None;
     idx_todos_completed := false; other_tables := []; journal_wal := false |}.

(** The statements passed to [execute] that return no row the script reads. *)
Inductive stmt :=
| PRAGMA_foreign_keys_ON
| PRAGMA_journal_mode_WAL
| CREATE_TABLE_IF_NOT_EXISTS_app_info
| CREATE_TABLE_IF_NOT_EXISTS_todos
| CREATE_INDEX_IF_NOT_EXISTS_idx_todos_completed
| INSERT_OR_REPLACE_INTO_app_info (key value : str).

(** The three [SELECT COUNT( * )] statements of the statistics. *)
Inductive query :=
| COUNT_user_tables
| COUNT_app_info
| COUNT_todos.

Definition max_id (rows : list app_info_row) : Z :=
  foldr (fun r m => Z.max (ai_id r) m) 0%Z rows.

(** The largest rowid, [2^63 - 1]. *)
Definition max_rowid : Z := 9223372036854775807.

(** [INSERT OR REPLACE INTO app_info (key, value) VALUES (k, v)]: a row is
    added with the next AUTOINCREMENT id and the current time.  [REPLACE]
    deletes the rows the new one conflicts with: the row that holds [k]
    when [key] is [UNIQUE], none when the table lacks the constraint.
    The statement fails ([SQLITE_FULL]) once the largest rowid has been
    used, and when there is no table. *)
Definition insert_or_replace (ts k v : str) (d : Database) : option Database :=
  match app_info d with
  | None => None
  | Some rows =>
      let last_id := Z.max (app_info_seq d) (max_id rows) in
      if (max_rowid <=? last_id)%Z then None
      else
        let id := (1 + last_id)%Z in
        let kept :=
          if app_info_key_unique d then filter (fun r => ai_key r ≠ k) rows
          else rows in
        Some {| app_info := Some (kept ++ [mk_app_info_row id k (Some v) ts]);
                app_info_key_unique := app_info_key_unique d;
                app_info_seq := id;
                todos := todos d;
                idx_todos_completed := idx_todos_completed d;
                other_tables := other_tables d;
                journal_wal := journal_wal d |}
  end.

(** [CREATE TABLE IF NOT EXISTS app_info (... key TEXT UNIQUE NOT NULL ...)]:
    nothing happens when a table of that name exists, whatever its
    declaration. *)
Definition create_app_info (d : Database) : Database :=
  match app_info d with
  | Some _ => d
  | None =>
      {| app_info := Some [];
         app_info_key_unique := true;
         app_info_seq := app_info_seq d;
         todos := todos d;
         idx_todos_completed := idx_todos_completed d;
         other_tables := other_tables d;
         journal_wal := journal_wal d |}
  end.

Definition create_todos (d : Database) : Database :=
  {| app_info := app_info d;
     app_info_key_unique := app_info_key_unique d;
     app_info_seq := app_info_seq d;
     todos := Some (default [] (todos d));
     idx_todos_completed := idx_todos_completed d;
     other_tables := other_tables d;
     journal_wal := journal_wal d |}.

(** [CREATE INDEX ... ON todos(completed)] needs the table. *)
Definition create_index (d : Database) : option Database :=
  match todos d with
  | None => None
  | Some _ =>
      Some {| app_info := app_info d;
              app_info_key_unique := app_info_key_unique d;
              app_info_seq := app_info_seq d;
              todos := todos d;
              idx_todos_completed := true;
              other_tables := other_tables d;
              journal_wal := journal_wal d |}
  end.

Definition set_wal (d : Database) : Database :=
  {| app_info := app_info d;
     app_info_key_unique := app_info_key_unique d;
     app_info_seq := app_info_seq d;
     todos := todos d;
     idx_todos_completed := idx_todos_completed d;
     other_tables := other_tables d;
     journal_wal := true |}.

Definition ascii_lower (c : char) : char :=
  if (65 <=? c) && (c <=? 90) then c + 32 else c.

(** [name LIKE 'sqlite_%']: [LIKE] ignores ASCII case, [_] is any one
    character and [%] any run of characters. *)
Definition like_sqlite_ (name : str) : bool :=
  str_eqb (map ascii_lower (take 6 name)) (lit "sqlite")
  && (7 <=? length name)%nat.

Definition count_user_tables (d : Database) : N :=
  (if app_info d is Some _ then 1 else 0) + (if todos d is Some _ then 1 else 0)
  + N.of_nat (length (filter (fun n => like_sqlite_ n = false) (other_tables d))).

(** A connection: the file it is on, the transaction it has open (the
    database as the transaction sees it) and its [foreign_keys] setting. *)
Record Connection := mk_Connection {
  conn_file : str;
  conn_txn : option Database;
  conn_foreign_keys : bool
}.

(** ** The process and its surroundings *)

(** The calls into the operating system and the storage engine that can
    fail for reasons outside the script (permissions, a full disk, a file
    that is not a database, a table of another shape). *)
Inductive syscall :=
| Sys_mkdir (dir : Path)
| Sys_connect
| Sys_execute (s : stmt)
| Sys_commit
| Sys_query (q : query)
| Sys_open_connection_file
| Sys_makedirs_db_visualizer
| Sys_open_sqlite_env.

(** What a run cannot control: which of those calls fail, and the value of
    [CURRENT_TIMESTAMP] when a statement runs. *)
Record Env := mk_Env {
  fails : syscall -> bool;
  current_timestamp : stmt -> str
}.

Inductive event :=
| EvConnect (file : str)
| EvClose
| EvWriteConnectionFile
| EvWriteSqliteEnv.

(** The state a run reads and changes.  Database files are keyed by their
    resolved absolute path. *)
Record World := mk_World {
  cwd : str;                          (* [os.getcwd()] *)
  connection_file : file_state;       (* [db_connection.txt] *)
  sqlite_env : file_state;            (* [db_visualizer/sqlite.env] *)
  databases : gmap str Database;
  handle : option Connection;         (* the open [sqlite3.Connection] *)
  stdout : list str;
  trace : list event
}.

Definition set_connection_file (f : file_state) (w : World) : World :=
  mk_World (cwd w) f (sqlite_env w) (databases w) (handle w) (stdout w) (trace w).
Definition set_sqlite_env (f : file_state) (w : World) : World :=
  mk_World (cwd w) (connection_file w) f (databases w) (handle w) (stdout w) (trace w).
Definition set_databases (m : gmap str Database) (w : World) : World :=
  mk_World (cwd w) (connection_file w) (sqlite_env w) m (handle w) (stdout w) (trace w).
Definition set_handle (h : option Connection) (w : World) : World :=
  mk_World (cwd w) (connection_file w) (sqlite_env w) (databases w) h (stdout w) (trace w).
Definition add_stdout (line : str) (w : World) : World :=
  mk_World (cwd w) (connection_file w) (sqlite_env w) (databases w) (handle w)
           (stdout w ++ [line]) (trace w).
Definition add_event (e : event) (w : World) : World :=
  mk_World (cwd w) (connection_file w) (sqlite_env w) (databases w) (handle w)
           (stdout w) (trace w ++ [e]).

(** Computations of the script: a state transformer that may raise. *)
Definition M (A : Type) : Type := World -> World * result A.

Definition ret {A} (a : A) : M A := fun w => (w, inr a).
Definition raise {A} (e : exn) : M A := fun w => (w, inl e).
Definition bind {A B} (k : A -> M B) (m : M A) : M B :=
  fun w =>
    match m w with
    | (w', inr a) => k a w'
    | (w', inl e) => (w', inl e)
    end.

#[local] Instance M_ret : MRet M := @ret.
#[local] Instance M_bind : MBind M := @bind.

(** [try: body finally: fin] *)
Definition try_finally {A} (body : M A) (fin : M unit) : M A :=
  fun w =>
    match body w with
    | (w', r) =>
        match fin w' with
        | (w'', inr _) => (w'', r)
        | (w'', inl e) => (w'', inl e)
        end
    end.

Definition get {A} (f : World -> A) : M A := fun w => (w, inr (f w)).
Definition modify (f : World -> World) : M unit := fun w => (f w, inr ()).

(** A call that the surroundings may fail with [e]. *)
Definition sys (E : Env) (c : syscall) (e : exn) : M unit :=
  if fails E c then raise e else ret ().

Definition print (line : str) : M unit := modify (add_stdout line).

(** ** [sqlite3] calls *)

(** The file a database name designates: relative names are taken from
    the working directory. *)
Definition db_file_of (cwd : str) (database : str) : str :=
  Path_str (resolve cwd (Path_of_str database)).

(** The database file under a connection. *)
Definition on_disk (w : World) (c : Connection) : Database :=
  default empty_db (databases w !! conn_file c).

Definition write_disk (c : Connection) (d : Database) : M unit :=
  modify (fun w => set_databases (<[conn_file c := d]> (databases w)) w).

Definition set_txn (c : Connection) (t : option Database) : M unit :=
  modify (set_handle (Some (mk_Connection (conn_file c) t (conn_foreign_keys c)))).

(** [sqlite3.connect(database)]: the file is created when missing. *)
Definition sqlite3_connect (E : Env) (database : str) : M unit :=
  sys E Sys_connect sqlite3_Error;;
  modify (fun w =>
    let f := db_file_of (cwd w) database in
    set_handle (Some (mk_Connection f None false))
      (set_databases (<[f := default empty_db (databases w !! f)]> (databases w))
         (add_event (EvConnect database) w))).

(** Using a connection that is closed raises [sqlite3.ProgrammingError]. *)
Definition the_handle : M Connection :=
  fun w =>
    match handle w with
    | Some c => (w, inr c)
    | None => (w, inl sqlite3_Error)
    end.

(** Data definition statements run at once when no transaction is open,
    and inside the transaction when one is. *)
Definition ddl (c : Connection) (w : World) (f : Database -> option Database) : M unit :=
  match conn_txn c with
  | Some t =>
      match f t with
      | Some t' => set_txn c (Some t')
      | None => raise sqlite3_Error
      end
  | None =>
      match f (on_disk w c) with
      | Some d' => write_disk c d'
      | None => raise sqlite3_Error
      end
  end.

(** [conn.execute(s)] and [cursor.execute(s)].  The [sqlite3] module opens
    a transaction before an [INSERT] or [REPLACE]; it lasts until
    [commit] or [close]. *)
Definition execute (E : Env) (s : stmt) : M unit :=
  c ← the_handle;
  sys E (Sys_execute s) sqlite3_Error;;
  w ← get id;
  match s with
  | PRAGMA_foreign_keys_ON =>
      modify (set_handle (Some (mk_Connection (conn_file c) (conn_txn c) true)))
  | PRAGMA_journal_mode_WAL =>
      match conn_txn c with
      | Some _ => ret ()
      | None => write_disk c (set_wal (on_disk w c))
      end
  | CREATE_TABLE_IF_NOT_EXISTS_app_info => ddl c w (fun d => Some (create_app_info d))
  | CREATE_TABLE_IF_NOT_EXISTS_todos => ddl c w (fun d => Some (create_todos d))
  | CREATE_INDEX_IF_NOT_EXISTS_idx_todos_completed => ddl c w create_index
  | INSERT_OR_REPLACE_INTO_app_info k v =>
      match insert_or_replace (current_timestamp E s) k v
              (default (on_disk w c) (conn_txn c)) with
      | Some t' => set_txn c (Some t')
      | None => raise sqlite3_Error
      end
  end.

(** [conn.commit()] *)
Definition commit (E : Env) : M unit :=
  c ← the_handle;
  sys E Sys_commit sqlite3_Error;;
  match conn_txn c with
  | Some t => write_disk c t;; set_txn c None
  | None => ret ()
  end.

(** [conn.close()]: what was not committed is lost. *)
Definition close : M unit :=
  modify (fun w => set_handle None (add_event EvClose w)).

(** [cursor.execute(q)] followed by [cursor.fetchone()[0]]. *)
Definition fetch_count (E : Env) (q : query) : M N :=
  c ← the_handle;
  sys E (Sys_query q) sqlite3_Error;;
  w ← get id;
  let d := default (on_disk w c) (conn_txn c) in
  match q with
  | COUNT_user_tables => ret (count_user_tables d)
  | COUNT_app_info =>
      match app_info d with
      | Some rows => ret (N.of_nat (length rows))
      | None => raise sqlite3_Error
      end
  | COUNT_todos =>
      match todos d with
      | Some rows => ret (N.of_nat (length rows))
      | None => raise sqlite3_Error
      end
  end.

(** ** The script *)

(** [r"^#\s*File path:\s*(.+)\s*$"] *)
Definition file_path_re : regex :=
  [RBol; RLit 35; RStar isspace] ++ map RLit (lit "File path:")
  ++ [RStar isspace; ROpen; RPlus dot; RClose; RStar isspace; REol].

Definition os_path_exists (f : file_state) : bool :=
  match f with
  | Some _ => true
  | None => false
  end.

(** [open(path, "r", encoding="utf-8")] and [f.read()] *)
Definition open_read (f : file_state) : result str :=
  match f with
  | Some (mk_file true b) => read_text b
  | _ => inl OSError
  end.

(** [_parse_db_path_from_connection_file], on the state of the file at
    [connection_file_path].  Only [OSError] is caught. *)
Definition _parse_db_path_from_connection_file (f : file_state) : result (option Path) :=
  if negb (os_path_exists f) then inr None
  else
    match open_read f with
    | inl OSError => inr None
    | inl e => inl e
    | inr content =>
        match re_search file_path_re content with
        | None => inr None
        | Some group1 =>
            let path_str := strip group1 in
            if str_eqb path_str [] then inr None
            else inr (Some (Path_of_str path_str))
        end
    end.

(** The [f.write] calls of a [with open(path, "w", encoding="utf-8")]
    block, on the bytes written so far: a string that cannot be encoded
    raises, and what was written before it stays in the file. *)
Fixpoint write_all (chunks : list str) (written : bytes) : bytes * result unit :=
  match chunks with
  | [] => (written, inr ())
  | s :: rest =>
      match utf8_encode s with
      | Some b => write_all rest (written ++ b)
      | None => (written, inl UnicodeEncodeError)
      end
  end.

(** Opening for writing truncates an existing file and creates a missing
    one. *)
Definition overwrite (old : file_state) (b : bytes) : file_state :=
  Some (mk_file (default true (readable <$> old)) b).

(** The body of a [with open(path, "w", encoding="utf-8") as f] block that
    writes [chunks], for the file read by [getf] and stored by [setf]. *)
Definition with_open_w (getf : World -> file_state)
    (setf : file_state -> World -> World) (chunks : list str) : M unit :=
  fun w =>
    let (b, r) := write_all chunks [] in
    (setf (overwrite (getf w) b) w, r).

Definition connection_file_lines (db_path : Path) : list str :=
  let connection_string := lit "sqlite:///" ++ Path_str db_path in
  [ lit "# SQLite connection methods:" ++ [LF];
    lit "# Python: sqlite3.connect('" ++ Path_name db_path ++ lit "')" ++ [LF];
    lit "# Connection string: " ++ connection_string ++ [LF];
    lit "# File path: " ++ Path_str db_path ++ [LF] ].

(** [_write_connection_file(DB_CONNECTION_FILE, db_path)] *)
Definition _write_connection_file (E : Env) (db_path : Path) : M unit :=
  sys E Sys_open_connection_file OSError;;
  modify (add_event EvWriteConnectionFile);;
  with_open_w connection_file set_connection_file (connection_file_lines db_path).

(** The line of [sqlite.env]; 34 is the double quote. *)
Definition sqlite_env_line (db_path : Path) : str :=
  lit "export SQLITE_DB=" ++ [34] ++ Path_str db_path ++ [34; LF].

(** [_ensure_visualizer_env(db_path)] *)
Definition _ensure_visualizer_env (E : Env) (db_path : Path) : M unit :=
  sys E Sys_makedirs_db_visualizer OSError;;
  sys E Sys_open_sqlite_env OSError;;
  modify (add_event EvWriteSqliteEnv);;
  with_open_w sqlite_env set_sqlite_env
    [sqlite_env_line db_path].

(** [_ensure_schema(conn)] *)
Definition _ensure_schema (E : Env) : M unit :=
  execute E CREATE_TABLE_IF_NOT_EXISTS_app_info;;
  execute E CREATE_TABLE_IF_NOT_EXISTS_todos;;
  execute E CREATE_INDEX_IF_NOT_EXISTS_idx_todos_completed;;
  execute E (INSERT_OR_REPLACE_INTO_app_info (lit "project_name") (lit "simple-to-do-list"));;
  execute E (INSERT_OR_REPLACE_INTO_app_info (lit "version") (lit "0.1.0"));;
  commit E.

(** [_parse_db_path_from_connection_file(DB_CONNECTION_FILE)] *)
Definition parse_connection_file : M (option Path) :=
  fun w =>
    match _parse_db_path_from_connection_file (connection_file w) with
    | inl e => (w, inl e)
    | inr o => (w, inr o)
    end.

(** The body of the [try] of [main]. *)
Definition reconcile_and_count (E : Env) : M (N * N * N) :=
  execute E PRAGMA_foreign_keys_ON;;
  execute E PRAGMA_journal_mode_WAL;;
  _ensure_schema E;;
  table_count ← fetch_count E COUNT_user_tables;
  app_info_count ← fetch_count E COUNT_app_info;
  todos_count ← fetch_count E COUNT_todos;
  ret (table_count, app_info_count, todos_count).

(** What [main] does once the connection is closed (lines 168 to 185),
    with [cwd] the working directory and the three counts of the
    statistics. *)
Definition persist_and_report (E : Env) (cwd : str) (db_path : Path)
    (counts : N * N * N) : M unit :=
  let '(table_count, app_info_count, todos_count) := counts in
  _write_connection_file E (resolve cwd db_path);;
  _ensure_visualizer_env E (resolve cwd db_path);;
  print (lit "Connection information saved to db_connection.txt");;
  print (lit "Environment variables saved to db_visualizer/sqlite.env");;
  print ([LF] ++ lit "SQLite setup complete!");;
  print (lit "Database: " ++ Path_name db_path);;
  print (lit "Location: " ++ Path_str (resolve cwd db_path) ++ [LF]);;
  print (lit "Database statistics:");;
  print (lit "  Tables: " ++ str_of_N table_count);;
  print (lit "  App info records: " ++ str_of_N app_info_count);;
  print (lit "  Todos: " ++ str_of_N todos_count);;
  print ([LF] ++ lit "To use with Node.js viewer, run: source db_visualizer/sqlite.env");;
  print ([LF] ++ lit "Script completed successfully.").

(** [main()] *)
Definition main (E : Env) : M unit :=
  print (lit "Starting SQLite setup...");;
  parsed ← parse_connection_file;
  w ← get id;
  let db_path :=
    match parsed with
    | Some p => p
    | None => joinpath (Path_of_str (cwd w)) (lit "myapp.db")
    end in
  sys E (Sys_mkdir (Path_parent db_path)) OSError;;
  let db_exists :=
    bool_decide (is_Some (databases w !! db_file_of (cwd w) (Path_str db_path))) in
  (if db_exists
   then print (lit "SQLite database already exists at " ++ Path_str db_path)
   else print (lit "Creating new SQLite database at " ++ Path_str db_path ++ lit "..."));;
  sqlite3_connect E (Path_str db_path);;
  counts ← try_finally (reconcile_and_count E) close;
  persist_and_report E (cwd w) db_path counts.

(** ** Notions used in the statements *)

(** The path a run started in [w] settles on, or the exception the
    resolver raises. *)
Definition db_path_of (w : World) : result Path :=
  match _parse_db_path_from_connection_file (connection_file w) with
  | inl e => inl e
  | inr (Some p) => inr p
  | inr None => inr (joinpath (Path_of_str (cwd w)) (lit "myapp.db"))
  end.

(** The database file that path designates. *)
Definition db_file (w : World) (p : Path) : str := db_file_of (cwd w) (Path_str p).

(** The database as a run finds it: a missing file is created empty. *)
Definition db_before (w : World) (p : Path) : Database :=
  default empty_db (databases w !! db_file w p).

(** What the statements of a run make of a database, when none fails. *)
Definition reconciled (E : Env) (d : Database) : option Database :=
  d1 ← create_index (create_todos (create_app_info (set_wal d)));
  d2 ← insert_or_replace
         (current_timestamp E (INSERT_OR_REPLACE_INTO_app_info (lit "project_name") (lit "simple-to-do-list")))
         (lit "project_name") (lit "simple-to-do-list") d1;
  insert_or_replace
    (current_timestamp E (INSERT_OR_REPLACE_INTO_app_info (lit "version") (lit "0.1.0")))
    (lit "version") (lit "0.1.0") d2.

(** The storage-engine calls of a run. *)
Definition engine_calls : list syscall :=
  [ Sys_connect;
    Sys_execute PRAGMA_foreign_keys_ON;
    Sys_execute PRAGMA_journal_mode_WAL;
    Sys_execute CREATE_TABLE_IF_NOT_EXISTS_app_info;
    Sys_execute CREATE_TABLE_IF_NOT_EXISTS_todos;
    Sys_execute CREATE_INDEX_IF_NOT_EXISTS_idx_todos_completed;
    Sys_execute (INSERT_OR_REPLACE_INTO_app_info (lit "project_name") (lit "simple-to-do-list"));
    Sys_execute (INSERT_OR_REPLACE_INTO_app_info (lit "version") (lit "0.1.0"));
    Sys_commit;
    Sys_query COUNT_user_tables;
    Sys_query COUNT_app_info;
    Sys_query COUNT_todos ].

(** The three numbers of the statistics. *)
Definition counts_of (d : Database) : N * N * N :=
  (count_user_tables d, N.of_nat (length (default [] (app_info d))),
   N.of_nat (length (default [] (todos d)))).

(** What is outside the reach of the storage engine. *)
Definition same_outside (w' w : World) : Prop :=
  cwd w' = cwd w ∧ connection_file w' = connection_file w
  ∧ sqlite_env w' = sqlite_env w ∧ stdout w' = stdout w ∧ trace w' = trace w.

(** A computation that only works on the open connection: it leaves the
    rest of the world alone, keeps to the file of the connection and
    raises nothing but [sqlite3.Error]. *)
Definition engine_op {A} (m : M A) : Prop :=
  ∀ w,
    same_outside (m w).1 w
    ∧ conn_file <$> handle (m w).1 = conn_file <$> handle w
    ∧ (∀ k, Some k ≠ conn_file <$> handle w → databases (m w).1 !! k = databases w !! k)
    ∧ (∀ e, (m w).2 = inl e → e = sqlite3_Error).

(** The schema: which tables and indexes exist, and for [app_info]
    whether [key] is [UNIQUE]. *)
Definition schema (d : Database) : option bool * bool * bool * list str :=
  ((fun _ => app_info_key_unique d) <$> app_info d, bool_decide (is_Some (todos d)),
   idx_todos_completed d, other_tables d).

(** [app_info] is the table of the script, or is yet to be created:
    [key] is [UNIQUE] in it. *)
Definition unique_key (d : Database) : bool :=
  match app_info d with
  | Some _ => app_info_key_unique d
  | None => true
  end.

(** The largest rowid [app_info] has used. *)
Definition last_rowid (d : Database) : Z :=
  Z.max (app_info_seq d) (max_id (default [] (app_info d))).

(** The metadata as a list of key and value, in table order. *)
Definition metadata (d : Database) : list (str * option str) :=
  (fun r => (ai_key r, ai_value r)) <$> default [] (app_info d).

Definition rows_with_key (k : str) (d : Database) : list app_info_row :=
  filter (fun r => ai_key r = k) (default [] (app_info d)).

Definition rows_with_other_keys (d : Database) : list app_info_row :=
  filter (fun r => ai_key r ≠ lit "project_name" ∧ ai_key r ≠ lit "version")
         (default [] (app_info d)).

(** The rows the two [INSERT OR REPLACE] leave: with the constraint, the
    rows of the other keys; without it, every row that was there; then
    the two new rows. *)
Definition reconciled_rows (E : Env) (d : Database) : list app_info_row :=
  (if unique_key d then rows_with_other_keys d else default [] (app_info d))
  ++ [ mk_app_info_row (last_rowid d + 1) (lit "project_name") (Some (lit "simple-to-do-list"))
         (current_timestamp E
            (INSERT_OR_REPLACE_INTO_app_info (lit "project_name") (lit "simple-to-do-list")));
       mk_app_info_row (last_rowid d + 2) (lit "version") (Some (lit "0.1.0"))
         (current_timestamp E
            (INSERT_OR_REPLACE_INTO_app_info (lit "version") (lit "0.1.0"))) ].

(** The lines [main] prints after its first. *)
Definition report (db_exists : bool) (cwd : str) (db_path : Path) (counts : N * N * N) : list str :=
  [ if db_exists
    then lit "SQLite database already exists at " ++ Path_str db_path
    else lit "Creating new SQLite database at " ++ Path_str db_path ++ lit "...";
    lit "Connection information saved to db_connection.txt";
    lit "Environment variables saved to db_visualizer/sqlite.env";
    [LF] ++ lit "SQLite setup complete!";
    lit "Database: " ++ Path_name db_path;
    lit "Location: " ++ Path_str (resolve cwd db_path) ++ [LF];
    lit "Database statistics:";
    lit "  Tables: " ++ str_of_N counts.1.1;
    lit "  App info records: " ++ str_of_N counts.1.2;
    lit "  Todos: " ++ str_of_N counts.2;
    [LF] ++ lit "To use with Node.js viewer, run: source db_visualizer/sqlite.env";
    [LF] ++ lit "Script completed successfully." ].

(** The world a run without failure leaves: [p] is the path it settled
    on, [d'] the database it leaves there, [bc] and [be] the bytes of the
    two descriptors. *)
Definition world_after (w : World) (p : Path) (d' : Database) (bc be : bytes) : World :=
  {| cwd := cwd w;
     connection_file := overwrite (connection_file w) bc;
     sqlite_env := overwrite (sqlite_env w) be;
     databases := <[db_file w p := d']> (databases w);
     handle := None;
     stdout :=
       stdout w ++ lit "Starting SQLite setup..."
       :: report (bool_decide (is_Some (databases w !! db_file w p))) (cwd w) p (counts_of d');
     trace :=
       trace w ++ [EvConnect (Path_str p); EvClose; EvWriteConnectionFile; EvWriteSqliteEnv] |}.

(** The calls of a run outside the storage engine. *)
Definition os_calls (db_path : Path) : list syscall :=
  [ Sys_mkdir (Path_parent db_path); Sys_open_connection_file;
    Sys_makedirs_db_visualizer; Sys_open_sqlite_env ].

(** ** Worlds to run the script in *)

(** Surroundings in which no call fails. *)
Definition quiet_env : Env :=
  {| fails := fun _ => false;
     current_timestamp := fun _ => lit "2025-01-01 00:00:00" |}.

(** A readable file holding the UTF-8 encoding of [text]. *)
Definition text_file (text : str) : file_state :=
  Some (mk_file true (default [] (utf8_encode text))).

(** The working directory [/srv/app] with the descriptor [f] and no
    database. *)
Definition world_with (f : file_state) : World :=
  {| cwd := lit "/srv/app"; connection_file := f; sqlite_env := None;
     databases := ∅; handle := None; stdout := []; trace := [] |}.

(** A first run: no descriptor yet. *)
Definition fresh_world : World := world_with None.

(** A descriptor edited by hand to hold a relative path. *)
Definition relative_world : World :=
  world_with (text_file (lit "# File path: data/app.db" ++ [LF])).

(** The descriptor of the specification's example. *)
Definition recorded_world : World :=
  world_with (text_file (lit "# File path: /tmp/x/custom.db" ++ [LF])).

(** A descriptor that is not valid UTF-8: the single byte 0xFF. *)
Definition undecodable_world : World :=
  world_with (Some (mk_file true [xff])).

(** The path [/a\rb]: a directory entry whose name holds a carriage
    return. *)
Definition cr_path : Path := Path_of_str (lit "/a" ++ [CR] ++ lit "b").

(** Paths in the normal form of [pathlib]. *)
Definition wf_path (p : Path) : Prop :=
  (root p = [] ∨ root p = [SLASH] ∨ root p = [SLASH; SLASH])
  ∧ Forall (fun x => is_component x ∧ SLASH ∉ x) (parts p).

(** A text that survives being written after ["# File path: "] and read
    back: one line, no white space at either end. *)
Definition one_clean_line (s : str) : Prop :=
  (LF ∉ s) ∧ (CR ∉ s)
  ∧ (∀ c, head s = Some c → isspace c = false)
  ∧ (∀ c, last s = Some c → isspace c = false).

(** A database in use, set up by an earlier version of the script: one
    todo, the version of that time, a metadata row of the application's
    own and a table of its own. *)
Definition used_db : Database :=
  {| app_info :=
       Some [ mk_app_info_row 2 (lit "version") (Some (lit "0.0.9")) (lit "2024-05-01 09:00:00");
              mk_app_info_row 7 (lit "theme") (Some (lit "dark")) (lit "2024-06-01 10:00:00") ];
     app_info_key_unique := true;
     app_info_seq := 7;
     todos := Some [mk_todos_row 1 (lit "buy milk") 0
                      (lit "2024-06-01 10:00:00") (lit "2024-06-01 10:00:00")];
     idx_todos_completed := true;
     other_tables := [lit "tags"];
     journal_wal := true |}.

(** The working directory [/srv/app] with that database and no
    descriptor. *)
Definition used_world : World :=
  {| cwd := lit "/srv/app"; connection_file := None; sqlite_env := None;
     databases := {[ lit "/srv/app/myapp.db" := used_db ]};
     handle := None; stdout := []; trace := [] |}.

(** A database whose [app_info] was made by other hands, with the
    columns of the script and no [UNIQUE] constraint on [key]. *)
Definition legacy_db : Database :=
  {| app_info :=
       Some [ mk_app_info_row 1 (lit "project_name") (Some (lit "old-name"))
                (lit "2023-01-01 00:00:00") ];
     app_info_key_unique := false;
     app_info_seq := 1;
     todos := None;
     idx_todos_completed := false;
     other_tables := [];
     journal_wal := false |}.

(** The working directory [/srv/app] with that database and no
    descriptor. *)
Definition legacy_world : World :=
  {| cwd := lit "/srv/app"; connection_file := None; sqlite_env := None;
     databases := {[ lit "/srv/app/myapp.db" := legacy_db ]};
     handle := None; stdout := []; trace := [] |}.

(** Surroundings in which the calls picked by [bad] fail. *)
Definition env_failing (bad : syscall → bool) : Env :=
  {| fails := bad;
     current_timestamp := fun _ => lit "2025-01-01 00:00:00" |}.

(** [COMMIT] fails, as on a full disk or a locked file. *)
Definition commit_fails : Env :=
  env_failing (fun c => match c with Sys_commit => true | _ => false end).

(** [db_connection.txt] cannot be opened for writing. *)
Definition connection_file_unwritable : Env :=
  env_failing (fun c => match c with Sys_open_connection_file => true | _ => false end).

(** The directory [db_visualizer] cannot be created. *)
Definition no_db_visualizer : Env :=
  env_failing (fun c => match c with Sys_makedirs_db_visualizer => true | _ => false end).

(** No directory can be created. *)
Definition no_mkdir : Env :=
  env_failing (fun c => match c with Sys_mkdir _ => true | _ => false end).

(** A working directory whose name is not valid UTF-8: the byte 0x80 of
    the name is the lone surrogate U+DC80 in the string. *)
Definition surrogate_world : World :=
  {| cwd := lit "/srv/" ++ [56448]; connection_file := None; sqlite_env := None;
     databases := ∅; handle := None; stdout := []; trace := [] |}.

(** The descriptor of the specification's example followed by the first
    byte of a two-byte sequence, as a write cut short leaves it. *)
Definition cut_short_world : World :=
  world_with (Some (mk_file true
    (default [] (utf8_encode (lit "# File path: /tmp/x/custom.db" ++ [LF])) ++ [xc3]))).

(** A descriptor whose line has lost its [#]. *)
Definition no_hash_world : World :=
  world_with (text_file (lit "File path: /tmp/x/custom.db" ++ [LF])).

(** A descriptor edited by hand: a note, a line without the optional
    blanks and with blanks at its end, then a second path. *)
Definition two_paths_text : str :=
  lit "notes" ++ [LF] ++ lit "#File path:" ++ [9] ++ lit "/tmp/x.db  " ++ [LF]
  ++ lit "# File path: /tmp/other.db" ++ [LF].

Definition two_paths_world : World := world_with (text_file two_paths_text).

(** A database of the script in which one rowid of [app_info] is left. *)
Definition nearly_full_db : Database :=
  {| app_info :=
       Some [ mk_app_info_row (max_rowid - 1) (lit "version") (Some (lit "0.0.9"))
                (lit "2024-05-01 09:00:00") ];
     app_info_key_unique := true;
     app_info_seq := max_rowid - 1;
     todos := Some [];
     idx_todos_completed := true;
     other_tables := [];
     journal_wal := true |}.

Definition nearly_full_world : World :=
  {| cwd := lit "/srv/app"; connection_file := None; sqlite_env := None;
     databases := {[ lit "/srv/app/myapp.db" := nearly_full_db ]};
     handle := None; stdout := []; trace := [] |}.

(** The descriptor of the specification's example beside an environment
    file that still names an earlier place. *)
Definition moved_world : World :=
  {| cwd := lit "/srv/app";
     connection_file := text_file (lit "# File path: /tmp/x/custom.db" ++ [LF]);
     sqlite_env := text_file (lit "export SQLITE_DB=" ++ [34] ++ lit "/old/place.db" ++ [34; LF]);
     databases := ∅; handle := None; stdout := []; trace := [] |}.

(** What belongs to the user in a database, as a run leaves it: the rows
    of [todos], the other tables, and no table dropped. *)
Definition user_data_kept (d d' : Database) : Prop :=
  default [] (todos d') = default [] (todos d)
  ∧ other_tables d' = other_tables d
  ∧ (is_Some (todos d) → is_Some (todos d'))
  ∧ (is_Some (app_info d) → is_Some (app_info d')).

(** The ids of [app_info] are distinct and none is above the sequence. *)
Definition ids_ok (d : Database) : Prop :=
  NoDup (ai_id <$> default [] (app_info d))
  ∧ Forall (fun r => (ai_id r ≤ app_info_seq d)%Z) (default [] (app_info d)).

(** Pattern items that leave the capture group alone. *)
Definition no_group (i : re_item) : Prop :=
  match i with
  | ROpen | RClose => False
  | _ => True
  end.

#[global] Arguments insert_or_replace : simpl never.
#[global] Arguments create_index : simpl never.
#[global] Arguments create_todos : simpl never.
#[global] Arguments create_app_info : simpl never.
#[global] Arguments set_wal : simpl never.
#[global] Arguments count_user_tables : simpl never.
#[global] Arguments write_all : simpl never.
#[global] Arguments connection_file_lines : simpl never.
#[global] Arguments Path_str : simpl never.
#[global] Arguments Path_of_str : simpl never.
#[global] Arguments resolve : simpl never.
#[global] Arguments joinpath : simpl never.
#[global] Arguments str_of_N : simpl never.
#[global] Arguments db_file_of : simpl never.

(** * Properties *)

(** ** The statements on one database *)

Lemma insert_or_replace_Some ts k v d d' :
  insert_or_replace ts k v d = Some d' →
  ∃ rows, app_info d = Some rows
    ∧ (Z.max (app_info_seq d) (max_id rows) < max_rowid)%Z
    ∧ app_info d'
      = Some ((if app_info_key_unique d then filter (fun r => ai_key r ≠ k) rows else rows)
              ++ [mk_app_info_row (1 + Z.max (app_info_seq d) (max_id rows)) k (Some v) ts])
    ∧ app_info_key_unique d' = app_info_key_unique d
    ∧ app_info_seq d' = (1 + Z.max (app_info_seq d) (max_id rows))%Z
    ∧ todos d' = todos d ∧ idx_todos_completed d' = idx_todos_completed d
    ∧ other_tables d' = other_tables d ∧ journal_wal d' = journal_wal d.
Proof.
  unfold insert_or_replace. destruct (app_info d) as [rows|]; [|done].
  destruct (Z.leb_spec max_rowid (Z.max (app_info_seq d) (max_id rows))); [done|].
  intros [= <-]. exists rows. done.
Qed.

(** With room for one more rowid the statement goes through. *)
Lemma insert_or_replace_room ts k v d rows :
  app_info d = Some rows →
  (Z.max (app_info_seq d) (max_id rows) < max_rowid)%Z →
  is_Some (insert_or_replace ts k v d).
Proof.
  intros Hr Hlt. unfold insert_or_replace. rewrite Hr.
  destruct (Z.leb_spec max_rowid (Z.max (app_info_seq d) (max_id rows))); [lia|eauto].
Qed.

Lemma create_index_Some d d' :
  create_index d = Some d' →
  is_Some (todos d) ∧ app_info d' = app_info d
  ∧ app_info_key_unique d' = app_info_key_unique d ∧ app_info_seq d' = app_info_seq d
  ∧ todos d' = todos d ∧ idx_todos_completed d' = true
  ∧ other_tables d' = other_tables d ∧ journal_wal d' = journal_wal d.
Proof.
  unfold create_index. destruct (todos d) eqn:Ht; [|done].
  intros [= <-]. cbn. rewrite ?Ht. eauto 10.
Qed.

(** The three [CREATE] statements after the pragma: tables that exist
    stay as they are, the missing ones are made empty. *)
Lemma create_tables_index d :
  create_index (create_todos (create_app_info (set_wal d)))
  = Some (mk_Database (Some (default [] (app_info d))) (unique_key d) (app_info_seq d)
            (Some (default [] (todos d))) true (other_tables d) true).
Proof. unfold create_app_info, unique_key. by destruct d as [[rows|] u s t i o j]. Qed.

Lemma reconciled_Some E d d' :
  reconciled E d = Some d' →
  ∃ rows,
    app_info d' = Some rows
    ∧ todos d' = Some (default [] (todos d))
    ∧ idx_todos_completed d' = true
    ∧ other_tables d' = other_tables d
    ∧ journal_wal d' = true.
Proof.
  unfold reconciled. rewrite create_tables_index. cbn. intros H.
  destruct (insert_or_replace _ _ _ _) as [d2|] eqn:H2; [|done]. cbn in H.
  apply insert_or_replace_Some in H2 as (r2 & _ & _ & _ & _ & _ & T2 & I2 & O2 & J2).
  apply insert_or_replace_Some in H as (r3 & _ & _ & A3 & _ & _ & T3 & I3 & O3 & J3).
  eexists. split; [exact A3|].
  rewrite T3, T2, I3, I2, O3, O2, J3, J2. done.
Qed.


(** Case analysis on the next call that the surroundings may fail; the
    failing branch ends the computation. *)
Ltac run_call :=
  match goal with
  | |- context [fails ?E ?c] =>
      let F := fresh "Hcall" in
      destruct (fails E c) eqn:F; cbn; [try discriminate|]
  end.

(** A [try] body that returns has made every call without failure, has
    brought the file to [reconciled] and has counted on the result. *)
Lemma reconcile_success E w c w' counts : 
  reconcile_and_count E w = (w', inr counts) → handle w = Some c → conn_txn c = None →
  Forall (fun call => fails E call = false) (tail engine_calls)
  ∧ ∃ d', reconciled E (on_disk w c) = Some d'
     ∧ w' = set_handle (Some (mk_Connection (conn_file c) None true))
              (set_databases (<[conn_file c := d']> (databases w)) w)
     ∧ counts = counts_of d'.
Proof.
  destruct w as [cw cf se dbs h out tr], c as [f txn fk]; cbn. intros H -> ->.
  revert H. unfold reconcile_and_count, _ensure_schema, execute, commit, fetch_count.
  unfold mbind, M_bind, bind, mret, M_ret, ret, the_handle, get, modify, sys, raise, ddl, write_disk, set_txn, on_disk.
  cbn.
  do 5 (run_call; rewrite ?lookup_insert_eq, ?insert_insert_eq; cbn).
  destruct (reconciled E (default empty_db (dbs !! f))) as [d'|] eqn:HR.
  2:{ revert HR. unfold reconciled. cbn.
      destruct (create_index _) as [d1|]; cbn; [|discriminate].
      run_call. rewrite ?lookup_insert_eq, ?insert_insert_eq; cbn.
      destruct (insert_or_replace _ _ _ d1) as [d2|]; cbn; [|discriminate].
      run_call.
      destruct (insert_or_replace _ _ _ d2) as [d3|]; cbn; discriminate. }
  destruct (reconciled_Some _ _ _ HR) as (rows & HA & HT & _).
  revert HR. unfold reconciled. cbn.
  destruct (create_index _) as [d1|]; cbn; [|discriminate].
  run_call. rewrite ?lookup_insert_eq, ?insert_insert_eq; cbn.
  destruct (insert_or_replace _ _ _ d1) as [d2|]; cbn; [|discriminate].
  run_call. intros ->.
  do 3 (run_call; rewrite ?lookup_insert_eq, ?insert_insert_eq; cbn; rewrite ?HA; cbn).
  run_call. rewrite ?lookup_insert_eq; cbn. rewrite HT; cbn.
  intros [= <- <-]. split.
  { unfold engine_calls. cbn. repeat constructor; assumption. }
  eexists; split; [reflexivity|]. split; [reflexivity|].
  unfold counts_of. rewrite HA, HT. done.
Qed.

(** ** [main], case by case *)

Lemma persist_and_report_unfold E cw p counts w :
  persist_and_report E cw p counts w =
  if fails E Sys_open_connection_file then (w, inl OSError)
  else
    let wa := add_event EvWriteConnectionFile w in
    match write_all (connection_file_lines (resolve cw p)) [] with
    | (b, inl e) => (set_connection_file (overwrite (connection_file w) b) wa, inl e)
    | (b, inr _) =>
        let wb := set_connection_file (overwrite (connection_file w) b) wa in
        if fails E Sys_makedirs_db_visualizer then (wb, inl OSError)
        else if fails E Sys_open_sqlite_env then (wb, inl OSError)
        else
          let wc := add_event EvWriteSqliteEnv wb in
          match write_all [sqlite_env_line (resolve cw p)] [] with
          | (b', inl e) => (set_sqlite_env (overwrite (sqlite_env w) b') wc, inl e)
          | (b', inr _) =>
              (foldl (fun w line => add_stdout line w)
                     (set_sqlite_env (overwrite (sqlite_env w) b') wc)
                     (tail (report false cw p counts)),
               inr ())
          end
    end.
Proof.
  destruct counts as [[tc ac] td].
  unfold persist_and_report, _write_connection_file, _ensure_visualizer_env, with_open_w, print.
  unfold mbind, M_bind, bind, mret, M_ret, ret, modify, sys, raise.
  destruct (fails E Sys_open_connection_file); [reflexivity|].
  cbn. destruct (write_all (connection_file_lines (resolve cw p)) []) as [b [e|[]]]; [reflexivity|].
  destruct (fails E Sys_makedirs_db_visualizer); [reflexivity|].
  destruct (fails E Sys_open_sqlite_env); [reflexivity|].
  cbn. match goal with |- context [write_all ?l []] => destruct (write_all l []) as [b' [e|[]]] end; reflexivity.
Qed.

Lemma main_unfold E w :
  main E w =
  let w1 := add_stdout (lit "Starting SQLite setup...") w in
  match db_path_of w with
  | inl e => (w1, inl e)
  | inr p =>
      if fails E (Sys_mkdir (Path_parent p)) then (w1, inl OSError)
      else
        let db_exists := bool_decide (is_Some (databases w !! db_file w p)) in
        let w2 := add_stdout (hd [] (report db_exists (cwd w) p (0, 0, 0))) w1 in
        if fails E Sys_connect then (w2, inl sqlite3_Error)
        else
          let w3 :=
            set_handle (Some (mk_Connection (db_file w p) None false))
              (set_databases (<[db_file w p := db_before w p]> (databases w))
                 (add_event (EvConnect (Path_str p)) w2)) in
          match reconcile_and_count E w3 with
          | (w4, inl e) => (set_handle None (add_event EvClose w4), inl e)
          | (w4, inr counts) =>
              persist_and_report E (cwd w) p counts
                (set_handle None (add_event EvClose w4))
          end
  end.
Proof.
  unfold main, parse_connection_file, db_path_of, sqlite3_connect, try_finally, close, print.
  unfold mbind, M_bind, bind, mret, M_ret, ret, modify, get, sys, raise.
  cbn.
  destruct (_parse_db_path_from_connection_file _) as [e|parsed]; [reflexivity|].
  cbn.
  destruct parsed as [p|]; cbn.
  - destruct (fails E (Sys_mkdir _)); [reflexivity|]. cbn.
    destruct (bool_decide _); cbn; (destruct (fails E Sys_connect); [reflexivity|]); cbn;
    destruct (reconcile_and_count E _) as [w4 [e|counts]]; reflexivity.
  - destruct (fails E (Sys_mkdir _)); [reflexivity|]. cbn.
    destruct (bool_decide _); cbn; (destruct (fails E Sys_connect); [reflexivity|]); cbn;
    destruct (reconcile_and_count E _) as [w4 [e|counts]]; reflexivity.
Qed.

(** ** The storage engine stays within the connection *)

Lemma engine_op_ret {A} (a : A) : engine_op (ret a).
Proof. intros w. repeat split; done. Qed.

Lemma engine_op_bind {A B} (m : M A) (k : A → M B) :
  engine_op m → (∀ a, engine_op (k a)) → engine_op (m ≫= k).
Proof.
  intros Hm Hk w. destruct (Hm w) as ((C1 & F1 & S1 & O1 & T1) & Hh & Hd & He).
  unfold mbind, M_bind, bind.
  destruct (m w) as [w1 [e|a]]; cbn in *.
  { repeat split; try done. intros e' [= <-]. by apply He. }
  destruct (Hk a w1) as ((C2 & F2 & S2 & O2 & T2) & Hh2 & Hd2 & He2).
  repeat split; try congruence; [|exact He2].
  intros k0 Hk0. rewrite Hd2, Hd; [done..|congruence].
Qed.

Ltac engine_prim :=
  repeat split; cbn; try done;
  try (match goal with H : handle _ = _ |- _ => rewrite H end; done);
  try (intros ? Hne; apply lookup_insert_ne; congruence);
  try (intros ? [= <-]; done).

Lemma engine_op_execute E s : engine_op (execute E s).
Proof.
  intros w. unfold execute, the_handle, ddl, write_disk, set_txn, on_disk.
  unfold mbind, M_bind, bind, mret, M_ret, ret, modify, get, sys, raise.
  destruct (handle w) as [[f txn fk]|] eqn:Hh; cbn; [|by engine_prim].
  destruct (fails E (Sys_execute s)); cbn; [by engine_prim|].
  destruct s; cbn; rewrite ?Hh; cbn;
    repeat match goal with
    | |- context [match ?x with _ => _ end] => destruct x eqn:?; cbn
    end; rewrite ?Hh; engine_prim.
Qed.

Lemma engine_op_commit E : engine_op (commit E).
Proof.
  intros w. unfold commit, the_handle, write_disk, set_txn.
  unfold mbind, M_bind, bind, mret, M_ret, ret, modify, get, sys, raise.
  destruct (handle w) as [[f txn fk]|] eqn:Hh; cbn; [|by engine_prim].
  destruct (fails E Sys_commit); cbn; [by engine_prim|].
  destruct txn; cbn; rewrite ?Hh; engine_prim.
Qed.

Lemma engine_op_fetch_count E q : engine_op (fetch_count E q).
Proof.
  intros w. unfold fetch_count, the_handle, on_disk.
  unfold mbind, M_bind, bind, mret, M_ret, ret, modify, get, sys, raise.
  destruct (handle w) as [[f txn fk]|] eqn:Hh; cbn; [|by engine_prim].
  destruct (fails E (Sys_query q)); cbn; [by engine_prim|].
  destruct q; cbn;
    repeat match goal with
    | |- context [match ?x with _ => _ end] => destruct x eqn:?; cbn
    end; rewrite ?Hh; engine_prim.
Qed.

Lemma engine_op_reconcile E : engine_op (reconcile_and_count E).
Proof.
  unfold reconcile_and_count, _ensure_schema.
  repeat first
    [ apply engine_op_execute | apply engine_op_commit
    | apply engine_op_fetch_count | apply engine_op_ret
    | apply engine_op_bind; [|intros ?] ].
Qed.

(** ** What a run makes of the metadata *)

Lemma project_name_ne_version : lit "project_name" ≠ lit "version".
Proof. discriminate. Qed.

Lemma max_id_app rows r :
  max_id (rows ++ [r]) = Z.max (max_id rows) (Z.max (ai_id r) 0).
Proof.
  unfold max_id. induction rows as [|x rows IH]; cbn [app foldr]; [lia|].
  rewrite IH. lia.
Qed.

Lemma max_id_nonneg rows : (0 ≤ max_id rows)%Z.
Proof. unfold max_id. induction rows as [|r rows IH]; cbn [foldr]; lia. Qed.

Lemma max_id_elem r rows : r ∈ rows → (ai_id r ≤ max_id rows)%Z.
Proof.
  unfold max_id. induction rows as [|x rows IH]; [by intros ?%elem_of_nil|].
  intros [->|H%IH]%elem_of_cons; cbn [foldr]; lia.
Qed.

Lemma max_id_filter (P : app_info_row → Prop) `{∀ r, Decision (P r)} rows :
  (max_id (filter P rows) ≤ max_id rows)%Z.
Proof.
  induction rows as [|x rows IH]; [done|].
  destruct (decide (P x)).
  - rewrite filter_cons_True by done. unfold max_id in *. cbn [foldr]. lia.
  - rewrite filter_cons_False by done. unfold max_id in *. cbn [foldr]. lia.
Qed.

Lemma insert_or_replace_table ts k v rows u sq t i o j :
  insert_or_replace ts k v (mk_Database (Some rows) u sq t i o j)
  = if (max_rowid <=? Z.max sq (max_id rows))%Z then None
    else Some (mk_Database
                 (Some ((if u then filter (fun r => ai_key r ≠ k) rows else rows)
                        ++ [mk_app_info_row (1 + Z.max sq (max_id rows)) k (Some v) ts]))
                 u (1 + Z.max sq (max_id rows)) t i o j).
Proof. reflexivity. Qed.

(** The statements of a run go through on the state of the file exactly
    when two rowids are left, and what they make of it is this. *)
Lemma reconciled_unfold E d :
  reconciled E d
  = if (max_rowid <? last_rowid d + 2)%Z then None
    else Some (mk_Database (Some (reconciled_rows E d)) (unique_key d) (last_rowid d + 2)
                 (Some (default [] (todos d))) true (other_tables d) true).
Proof.
  unfold reconciled, reconciled_rows, last_rowid, rows_with_other_keys.
  rewrite create_tables_index. cbn.
  set (rows := default [] (app_info d)). set (s := app_info_seq d).
  pose proof (max_id_nonneg rows) as H0.
  rewrite insert_or_replace_table.
  destruct (Z.leb_spec max_rowid (Z.max s (max_id rows))) as [Hfull|Hroom].
  { destruct (Z.ltb_spec max_rowid (Z.max s (max_id rows) + 2)); [done|lia]. }
  cbn [mbind option_bind]. rewrite insert_or_replace_table.
  set (r1 := mk_app_info_row _ (lit "project_name") _ _).
  set (kept := if unique_key d then filter _ rows else rows).
  assert (max_id kept ≤ max_id rows)%Z as Hk.
  { subst kept. destruct (unique_key d); [apply max_id_filter|lia]. }
  rewrite max_id_app. cbn [ai_id r1].
  replace (Z.max (1 + Z.max s (max_id rows))
             (Z.max (max_id kept) (Z.max (1 + Z.max s (max_id rows)) 0)))
    with (Z.max s (max_id rows) + 1)%Z by lia.
  destruct (Z.leb_spec max_rowid (Z.max s (max_id rows) + 1)) as [Hfull|Hroom2];
    destruct (Z.ltb_spec max_rowid (Z.max s (max_id rows) + 2)); try lia; [done|].
  replace (1 + (Z.max s (max_id rows) + 1))%Z with (Z.max s (max_id rows) + 2)%Z by lia.
  subst r1. replace (1 + Z.max s (max_id rows))%Z with (Z.max s (max_id rows) + 1)%Z by lia.
  do 2 f_equal. subst kept. destruct (unique_key d).
  - rewrite filter_app, list_filter_filter.
    rewrite (filter_cons_True (λ r, ai_key r ≠ lit "version"))
      by (cbn; apply project_name_ne_version).
    rewrite filter_nil, <- app_assoc. do 2 f_equal.
    apply list_filter_iff. intros r. tauto.
  - by rewrite <- app_assoc.
Qed.

Lemma reconciled_inv E d d' :
  reconciled E d = Some d' →
  (last_rowid d + 2 ≤ max_rowid)%Z
  ∧ d' = mk_Database (Some (reconciled_rows E d)) (unique_key d) (last_rowid d + 2)
           (Some (default [] (todos d))) true (other_tables d) true.
Proof.
  rewrite reconciled_unfold.
  destruct (Z.ltb_spec max_rowid (last_rowid d + 2)); [done|].
  intros [= <-]. split; [lia|done].
Qed.

(** With two rowids left no statement of a run can fail on the state of
    the file itself. *)
Lemma reconciled_room E d :
  (last_rowid d + 2 ≤ max_rowid)%Z → is_Some (reconciled E d).
Proof.
  intros H. rewrite reconciled_unfold.
  destruct (Z.ltb_spec max_rowid (last_rowid d + 2)); [lia|eauto].
Qed.

Lemma rows_with_other_keys_key k d :
  k = lit "project_name" ∨ k = lit "version" →
  filter (fun r => ai_key r = k) (rows_with_other_keys d) = [].
Proof.
  intros Hk. unfold rows_with_other_keys. rewrite list_filter_filter.
  induction (default [] (app_info d)) as [|r rows IH]; [done|].
  rewrite filter_cons_False; [done|]. intros [-> [? ?]]. destruct Hk; done.
Qed.

Lemma rows_with_other_keys_idem d :
  filter (fun r => ai_key r ≠ lit "project_name" ∧ ai_key r ≠ lit "version")
         (rows_with_other_keys d) = rows_with_other_keys d.
Proof.
  unfold rows_with_other_keys. rewrite list_filter_filter.
  apply list_filter_iff. intros r. tauto.
Qed.

(** The rows of the other keys are the rows that were there, with or
    without the constraint. *)
Lemma reconciled_other_keys E d d' :
  reconciled E d = Some d' → rows_with_other_keys d' = rows_with_other_keys d.
Proof.
  intros (_ & ->)%reconciled_inv.
  unfold rows_with_other_keys at 1. cbn [app_info default id]. unfold reconciled_rows.
  rewrite filter_app.
  rewrite (filter_cons_False (λ r, _ ∧ _)) by (cbn; tauto).
  rewrite (filter_cons_False (λ r, _ ∧ _)) by (cbn; tauto).
  rewrite filter_nil, app_nil_r.
  destruct (unique_key d); [apply rows_with_other_keys_idem|done].
Qed.

(** With the constraint, [app_info] is the rows of the other keys, as
    they were, followed by a row for [project_name] and one for
    [version]. *)
Lemma reconciled_app_info E d d' :
  unique_key d = true →
  reconciled E d = Some d' →
  ∃ id1 ts1 id2 ts2,
    app_info d' =
      Some (rows_with_other_keys d
            ++ [ mk_app_info_row id1 (lit "project_name") (Some (lit "simple-to-do-list")) ts1;
                 mk_app_info_row id2 (lit "version") (Some (lit "0.1.0")) ts2 ]).
Proof.
  intros Hu (_ & ->)%reconciled_inv. unfold reconciled_rows. rewrite Hu.
  do 4 eexists. reflexivity.
Qed.

Lemma reconciled_keys E d d' :
  unique_key d = true →
  reconciled E d = Some d' →
  length (rows_with_key (lit "project_name") d') = 1%nat
  ∧ length (rows_with_key (lit "version") d') = 1%nat
  ∧ rows_with_other_keys d' = rows_with_other_keys d.
Proof.
  intros Hu H. split; [|split; [|by eapply reconciled_other_keys]];
    destruct (reconciled_app_info _ _ _ Hu H) as (id1 & ts1 & id2 & ts2 & HA);
    pose proof project_name_ne_version as Hne;
    unfold rows_with_key; rewrite HA; cbn [default id];
    rewrite !filter_app, !rows_with_other_keys_key by auto.
  - rewrite (filter_cons_True (λ r, ai_key r = lit "project_name")) by done.
    rewrite (filter_cons_False (λ r, ai_key r = lit "project_name")) by (cbn; congruence).
    by rewrite filter_nil.
  - rewrite (filter_cons_False (λ r, ai_key r = lit "version")) by (cbn; congruence).
    rewrite (filter_cons_True (λ r, ai_key r = lit "version")) by done.
    by rewrite filter_nil.
Qed.

Lemma reconciled_unique_key E d d' :
  reconciled E d = Some d' → unique_key d' = unique_key d.
Proof. by intros (_ & ->)%reconciled_inv. Qed.

(** A second run keeps the schema and the rows of [todos], and with the
    constraint the keys and values of the metadata. *)
Lemma reconciled_twice E1 E2 d d1 d2 :
  unique_key d = true →
  reconciled E1 d = Some d1 → reconciled E2 d1 = Some d2 →
  schema d2 = schema d1 ∧ metadata d2 = metadata d1 ∧ todos d2 = todos d1.
Proof.
  intros Hu H1 H2.
  pose proof (reconciled_unique_key _ _ _ H1) as Hu1. rewrite Hu in Hu1.
  destruct (reconciled_app_info _ _ _ Hu H1) as (i1 & t1 & i2 & t2 & A1).
  destruct (reconciled_app_info _ _ _ Hu1 H2) as (j1 & u1 & j2 & u2 & A2).
  pose proof (reconciled_other_keys _ _ _ H1) as K1.
  apply reconciled_inv in H1 as (_ & E1'). apply reconciled_inv in H2 as (_ & E2').
  split; [|split].
  - rewrite E2'. unfold schema. cbn. rewrite Hu1.
    rewrite E1'. cbn. by rewrite Hu.
  - unfold metadata. rewrite A1, A2, K1. cbn. rewrite !fmap_app. done.
  - rewrite E2'. cbn. rewrite E1'. done.
Qed.


(** ** Runs that complete *)

Lemma World_eq w1 w2 :
  cwd w1 = cwd w2 → connection_file w1 = connection_file w2 →
  sqlite_env w1 = sqlite_env w2 → databases w1 = databases w2 →
  handle w1 = handle w2 → stdout w1 = stdout w2 → trace w1 = trace w2 →
  w1 = w2.
Proof. destruct w1, w2; cbn; by intros -> -> -> -> -> -> ->. Qed.

(** A run returns only when the resolver found a path, no call failed and
    both descriptors could be encoded; the world it leaves is then
    [world_after]. *)
Lemma main_success E w w' :
  main E w = (w', inr ()) →
  ∃ p d' bc be,
    db_path_of w = inr p
    ∧ Forall (fun c => fails E c = false) (os_calls p ++ engine_calls)
    ∧ reconciled E (db_before w p) = Some d'
    ∧ write_all (connection_file_lines (resolve (cwd w) p)) [] = (bc, inr ())
    ∧ write_all [sqlite_env_line (resolve (cwd w) p)] [] = (be, inr ())
    ∧ w' = world_after w p d' bc be.
Proof.
  rewrite main_unfold. cbn zeta.
  destruct (db_path_of w) as [e|p] eqn:Hp; [discriminate|].
  destruct (fails E (Sys_mkdir _)) eqn:F1; [discriminate|].
  destruct (fails E Sys_connect) eqn:F2; [discriminate|].
  destruct (reconcile_and_count E _) as [w4 [e|counts]] eqn:HR; [discriminate|].
  eapply reconcile_success in HR as (Hcalls & d' & Hd' & -> & ->); [|reflexivity..].
  rewrite persist_and_report_unfold. cbn zeta.
  destruct (fails E Sys_open_connection_file) eqn:F3; [discriminate|].
  destruct (write_all (connection_file_lines _) []) as [bc [e|[]]] eqn:Hbc; [discriminate|].
  destruct (fails E Sys_makedirs_db_visualizer) eqn:F4; [discriminate|].
  destruct (fails E Sys_open_sqlite_env) eqn:F5; [discriminate|].
  destruct (write_all [_] []) as [be [e|[]]] eqn:Hbe; [discriminate|].
  intros [= <-]. exists p, d', bc, be.
  split; [done|]. split.
  { unfold os_calls. cbn [app]. repeat (constructor; [assumption|]). exact Hcalls. }
  unfold on_disk in Hd'. cbn [handle set_handle set_databases databases conn_file add_event add_stdout] in Hd'.
  rewrite lookup_insert_eq in Hd'. cbn [default] in Hd'.
  split; [exact Hd'|]. split; [done|]. split; [done|].
  apply World_eq; unfold world_after.
  - reflexivity.
  - reflexivity.
  - reflexivity.
  - cbn [databases foldl tail report add_stdout set_sqlite_env add_event set_connection_file set_handle set_databases].
    apply insert_insert_eq.
  - reflexivity.
  - cbn [stdout foldl tail report add_stdout set_sqlite_env add_event set_connection_file set_handle set_databases].
    rewrite <- !app_assoc. reflexivity.
  - cbn [trace foldl tail report add_stdout set_sqlite_env add_event set_connection_file set_handle set_databases].
    rewrite <- !app_assoc. reflexivity.
Qed.

(** Conversely, with no failing call to the storage engine and two
    rowids left in [app_info], the [try] body returns. *)
Lemma reconcile_returns_calls E w c :
  handle w = Some c → conn_txn c = None →
  Forall (fun call => fails E call = false) (tail engine_calls) →
  (last_rowid (on_disk w c) + 2 ≤ max_rowid)%Z →
  ∃ w' counts, reconcile_and_count E w = (w', inr counts).
Proof.
  destruct w as [cw cf se dbs h out tr], c as [f txn fk]; cbn. intros -> -> HF Hroom.
  destruct (reconciled_room E _ Hroom) as [d' HR].
  destruct (reconciled_Some _ _ _ HR) as (rows & HA & HT & _).
  unfold engine_calls in HF. cbn [tail] in HF.
  repeat (apply Forall_cons in HF as [? HF]).
  unfold reconcile_and_count, _ensure_schema, execute, commit, fetch_count.
  unfold mbind, M_bind, bind, mret, M_ret, ret, the_handle, get, modify, sys, raise,
    ddl, write_disk, set_txn, on_disk in *.
  cbn in *.
  do 5 (run_call; rewrite ?lookup_insert_eq, ?insert_insert_eq; cbn).
  revert HR. unfold reconciled. cbn.
  destruct (create_index _) as [d1|]; cbn; [|discriminate].
  run_call. rewrite ?lookup_insert_eq, ?insert_insert_eq; cbn.
  destruct (insert_or_replace _ _ _ d1) as [d2|]; cbn; [|discriminate].
  run_call. intros ->.
  do 3 (run_call; rewrite ?lookup_insert_eq, ?insert_insert_eq; cbn; rewrite ?HA; cbn).
  run_call. rewrite ?lookup_insert_eq; cbn. rewrite HT; cbn.
  eauto.
Qed.

Lemma reconcile_returns E w c :
  handle w = Some c → conn_txn c = None → (∀ call, fails E call = false) →
  (last_rowid (on_disk w c) + 2 ≤ max_rowid)%Z →
  ∃ w' counts, reconcile_and_count E w = (w', inr counts).
Proof.
  intros Hh Ht HE. apply reconcile_returns_calls; [done..|].
  apply Forall_forall. intros call _. apply HE.
Qed.

(** Conversely, with no failing call, two rowids left and descriptors
    that can be encoded, a run returns. *)
Lemma main_returns E w p bc be :
  db_path_of w = inr p →
  (∀ c, fails E c = false) →
  (last_rowid (db_before w p) + 2 ≤ max_rowid)%Z →
  write_all (connection_file_lines (resolve (cwd w) p)) [] = (bc, inr ()) →
  write_all [sqlite_env_line (resolve (cwd w) p)] [] = (be, inr ()) →
  ∃ w', main E w = (w', inr ()).
Proof.
  intros Hp HE Hroom Hbc Hbe. rewrite main_unfold, Hp. cbn zeta. rewrite !HE.
  match goal with |- context [reconcile_and_count E ?w3] =>
    destruct (reconcile_returns E w3 _ eq_refl eq_refl HE) as (w4 & counts & HR);
    [|pose proof (engine_op_reconcile E w3) as ((C & _) & _)]
  end.
  { unfold on_disk. cbn [handle set_handle set_databases databases conn_file add_event add_stdout].
    by rewrite lookup_insert_eq. }
  rewrite HR in C |- *. cbn [fst cwd set_handle set_databases add_event add_stdout] in C.
  rewrite persist_and_report_unfold. cbn zeta. rewrite !HE.
  rewrite Hbc, Hbe. eauto.
Qed.

(** ** The database after a run *)

Lemma world_after_db w p d' bc be :
  databases (world_after w p d' bc be) !! db_file w p = Some d'.
Proof. cbn. apply lookup_insert_eq. Qed.

(** C5, as stated, fails on a database whose [app_info] was not made by
    the script and has no [UNIQUE] constraint on [key]:
    [CREATE TABLE IF NOT EXISTS] leaves that table as it is, and
    [INSERT OR REPLACE] then finds no conflict and deletes nothing.  The
    run completes and leaves two rows of key [project_name]. *)
Lemma C5_two_rows_without_unique_key :
  ∃ w' d',
    main quiet_env legacy_world = (w', inr ())
    ∧ databases w' !! lit "/srv/app/myapp.db" = Some d'
    ∧ metadata d'
      = [ (lit "project_name", Some (lit "old-name"));
          (lit "project_name", Some (lit "simple-to-do-list"));
          (lit "version", Some (lit "0.1.0")) ]
    ∧ length (rows_with_key (lit "project_name") d') = 2%nat.
Proof.
  do 2 eexists. split; [vm_compute; reflexivity|].
  split; [vm_compute; reflexivity|].
  split; vm_compute; reflexivity.
Qed.

(** C5, amended.  After a run that completes, whatever the database held
    before, [app_info] exists and the rows of every key other than
    [project_name] and [version] are the rows that were there, unchanged
    and in the same order.  When [app_info] was absent or had [key]
    [UNIQUE], as the table the script creates has, there is exactly one
    row of key [project_name] and exactly one of key [version], and the
    constraint is there for the next run. *)
Theorem C5_metadata_rows_after_run E w w' p :
  db_path_of w = inr p →
  main E w = (w', inr ()) →
  ∃ d',
    databases w' !! db_file w p = Some d'
    ∧ is_Some (app_info d')
    ∧ rows_with_other_keys d' = rows_with_other_keys (db_before w p)
    ∧ (unique_key (db_before w p) = true →
       length (rows_with_key (lit "project_name") d') = 1%nat
       ∧ length (rows_with_key (lit "version") d') = 1%nat
       ∧ unique_key d' = true).
Proof.
  intros Hp0 H. apply main_success in H as (p' & d' & bc & be & Hp & _ & Hd & _ & _ & ->).
  rewrite Hp0 in Hp. injection Hp as <-.
  exists d'. split; [apply world_after_db|].
  destruct (reconciled_Some _ _ _ Hd) as (rows & HA & _).
  split; [rewrite HA; eauto|].
  split; [by eapply reconciled_other_keys|].
  intros Hu. destruct (reconciled_keys _ _ _ Hu Hd) as (H1 & H2 & _).
  split; [done|]. split; [done|].
  by rewrite (reconciled_unique_key _ _ _ Hd).
Qed.

(** C9.  A run that completes leaves the rows of [todos] as they were,
    every one of them, and the count it prints is their number. *)
Theorem C9_todos_rows_kept E w w' :
  main E w = (w', inr ()) →
  ∃ p d',
    db_path_of w = inr p
    ∧ databases w' !! db_file w p = Some d'
    ∧ todos d' = Some (default [] (todos (db_before w p)))
    ∧ (∀ row, row ∈ default [] (todos (db_before w p)) → row ∈ default [] (todos d'))
    ∧ lit "  Todos: " ++ str_of_N (N.of_nat (length (default [] (todos (db_before w p)))))
        ∈ drop (length (stdout w)) (stdout w').
Proof.
  intros H. apply main_success in H as (p & d' & bc & be & Hp & _ & Hd & _ & _ & ->).
  exists p, d'. split; [done|]. split; [apply world_after_db|].
  destruct (reconciled_Some _ _ _ Hd) as (rows & _ & HT & _).
  split; [done|]. split; [by rewrite HT|].
  cbn [world_after stdout]. rewrite drop_app_length.
  unfold report, counts_of. rewrite HT. cbn [snd default].
  rewrite !elem_of_cons. auto 20.
Qed.

(** C4, as stated, fails on the same database: without the constraint
    every run adds a row of key [project_name] and one of key [version],
    so that the metadata after the second run is not the metadata after
    the first. *)
Lemma C4_second_run_adds_rows_without_unique_key :
  ∃ w1 w2 d1 d2,
    main quiet_env legacy_world = (w1, inr ())
    ∧ main quiet_env w1 = (w2, inr ())
    ∧ databases w1 !! lit "/srv/app/myapp.db" = Some d1
    ∧ databases w2 !! lit "/srv/app/myapp.db" = Some d2
    ∧ metadata d1
      = [ (lit "project_name", Some (lit "old-name"));
          (lit "project_name", Some (lit "simple-to-do-list"));
          (lit "version", Some (lit "0.1.0")) ]
    ∧ metadata d2
      = [ (lit "project_name", Some (lit "old-name"));
          (lit "project_name", Some (lit "simple-to-do-list"));
          (lit "version", Some (lit "0.1.0"));
          (lit "project_name", Some (lit "simple-to-do-list"));
          (lit "version", Some (lit "0.1.0")) ].
Proof.
  do 4 eexists. split; [vm_compute; reflexivity|].
  split; [vm_compute; reflexivity|].
  split; [vm_compute; reflexivity|].
  split; [vm_compute; reflexivity|].
  split; vm_compute; reflexivity.
Qed.

(** C4, amended.  Two runs in succession that complete, the first on a
    database in which [app_info] was absent or had [key] [UNIQUE]: in the
    database of the first run the second leaves the schema and the keys
    and values of the metadata as the first left them, and neither
    changes the rows of [todos], hence their count.  Wherever the second
    run settles, it leaves the rows of [todos] of its own database as
    they were. *)
Theorem C4_second_run_changes_nothing E1 E2 w0 w1 w2 p0 :
  main E1 w0 = (w1, inr ()) →
  main E2 w1 = (w2, inr ()) →
  db_path_of w0 = inr p0 →
  unique_key (db_before w0 p0) = true →
  ∃ d1 d2,
    databases w1 !! db_file w0 p0 = Some d1
    ∧ databases w2 !! db_file w0 p0 = Some d2
    ∧ schema d2 = schema d1
    ∧ metadata d2 = metadata d1
    ∧ todos d1 = Some (default [] (todos (db_before w0 p0)))
    ∧ todos d2 = todos d1
    ∧ ∃ p1 d,
        db_path_of w1 = inr p1
        ∧ databases w2 !! db_file w1 p1 = Some d
        ∧ todos d = Some (default [] (todos (db_before w1 p1))).
Proof.
  intros H1 H2 Hp0 Hu.
  apply main_success in H1 as (p & d1 & bc & be & Hp & _ & Hd1 & _ & _ & ->).
  rewrite Hp0 in Hp. injection Hp as <-.
  apply main_success in H2 as (p1 & d & bc' & be' & Hp1 & _ & Hd & _ & _ & ->).
  destruct (reconciled_Some _ _ _ Hd1) as (rows & _ & HT1 & _).
  destruct (reconciled_Some _ _ _ Hd) as (rows' & _ & HT & _).
  set (w1 := world_after w0 p0 d1 bc be) in *.
  assert (∃ d2, databases (world_after w1 p1 d bc' be') !! db_file w0 p0 = Some d2
                ∧ schema d2 = schema d1 ∧ metadata d2 = metadata d1 ∧ todos d2 = todos d1)
    as (d2 & Hd2 & S & Me & T).
  { destruct (decide (db_file w1 p1 = db_file w0 p0)) as [Hf|Hf].
    - exists d. rewrite <- Hf. split; [apply world_after_db|].
      unfold db_before in Hd. rewrite Hf in Hd. unfold w1 in Hd at 1.
      rewrite world_after_db in Hd. cbn [default] in Hd.
      exact (reconciled_twice _ _ _ _ _ Hu Hd1 Hd).
    - exists d1. split; [|done].
      cbn [world_after databases]. rewrite lookup_insert_ne by done.
      apply world_after_db. }
  exists d1, d2. split; [apply world_after_db|].
  do 5 (split; [done|]).
  exists p1, d. split; [done|]. split; [apply world_after_db|done].
Qed.

(** ** Reading a world through its updates *)

Lemma cwd_set_connection_file f w : cwd (set_connection_file f w) = cwd w.
Proof. done. Qed.
Lemma connection_file_set_connection_file f w : connection_file (set_connection_file f w) = f.
Proof. done. Qed.
Lemma sqlite_env_set_connection_file f w : sqlite_env (set_connection_file f w) = sqlite_env w.
Proof. done. Qed.
Lemma databases_set_connection_file f w : databases (set_connection_file f w) = databases w.
Proof. done. Qed.
Lemma handle_set_connection_file f w : handle (set_connection_file f w) = handle w.
Proof. done. Qed.
Lemma stdout_set_connection_file f w : stdout (set_connection_file f w) = stdout w.
Proof. done. Qed.
Lemma trace_set_connection_file f w : trace (set_connection_file f w) = trace w.
Proof. done. Qed.
Lemma cwd_set_sqlite_env f w : cwd (set_sqlite_env f w) = cwd w.
Proof. done. Qed.
Lemma connection_file_set_sqlite_env f w : connection_file (set_sqlite_env f w) = connection_file w.
Proof. done. Qed.
Lemma sqlite_env_set_sqlite_env f w : sqlite_env (set_sqlite_env f w) = f.
Proof. done. Qed.
Lemma databases_set_sqlite_env f w : databases (set_sqlite_env f w) = databases w.
Proof. done. Qed.
Lemma handle_set_sqlite_env f w : handle (set_sqlite_env f w) = handle w.
Proof. done. Qed.
Lemma stdout_set_sqlite_env f w : stdout (set_sqlite_env f w) = stdout w.
Proof. done. Qed.
Lemma trace_set_sqlite_env f w : trace (set_sqlite_env f w) = trace w.
Proof. done. Qed.
Lemma cwd_set_databases m w : cwd (set_databases m w) = cwd w.
Proof. done. Qed.
Lemma connection_file_set_databases m w : connection_file (set_databases m w) = connection_file w.
Proof. done. Qed.
Lemma sqlite_env_set_databases m w : sqlite_env (set_databases m w) = sqlite_env w.
Proof. done. Qed.
Lemma databases_set_databases m w : databases (set_databases m w) = m.
Proof. done. Qed.
Lemma handle_set_databases m w : handle (set_databases m w) = handle w.
Proof. done. Qed.
Lemma stdout_set_databases m w : stdout (set_databases m w) = stdout w.
Proof. done. Qed.
Lemma trace_set_databases m w : trace (set_databases m w) = trace w.
Proof. done. Qed.
Lemma cwd_set_handle h w : cwd (set_handle h w) = cwd w.
Proof. done. Qed.
Lemma connection_file_set_handle h w : connection_file (set_handle h w) = connection_file w.
Proof. done. Qed.
Lemma sqlite_env_set_handle h w : sqlite_env (set_handle h w) = sqlite_env w.
Proof. done. Qed.
Lemma databases_set_handle h w : databases (set_handle h w) = databases w.
Proof. done. Qed.
Lemma handle_set_handle h w : handle (set_handle h w) = h.
Proof. done. Qed.
Lemma stdout_set_handle h w : stdout (set_handle h w) = stdout w.
Proof. done. Qed.
Lemma trace_set_handle h w : trace (set_handle h w) = trace w.
Proof. done. Qed.
Lemma cwd_add_stdout l w : cwd (add_stdout l w) = cwd w.
Proof. done. Qed.
Lemma connection_file_add_stdout l w : connection_file (add_stdout l w) = connection_file w.
Proof. done. Qed.
Lemma sqlite_env_add_stdout l w : sqlite_env (add_stdout l w) = sqlite_env w.
Proof. done. Qed.
Lemma databases_add_stdout l w : databases (add_stdout l w) = databases w.
Proof. done. Qed.
Lemma handle_add_stdout l w : handle (add_stdout l w) = handle w.
Proof. done. Qed.
Lemma stdout_add_stdout l w : stdout (add_stdout l w) = stdout w ++ [l].
Proof. done. Qed.
Lemma trace_add_stdout l w : trace (add_stdout l w) = trace w.
Proof. done. Qed.
Lemma cwd_add_event e w : cwd (add_event e w) = cwd w.
Proof. done. Qed.
Lemma connection_file_add_event e w : connection_file (add_event e w) = connection_file w.
Proof. done. Qed.
Lemma sqlite_env_add_event e w : sqlite_env (add_event e w) = sqlite_env w.
Proof. done. Qed.
Lemma databases_add_event e w : databases (add_event e w) = databases w.
Proof. done. Qed.
Lemma handle_add_event e w : handle (add_event e w) = handle w.
Proof. done. Qed.
Lemma stdout_add_event e w : stdout (add_event e w) = stdout w.
Proof. done. Qed.
Lemma trace_add_event e w : trace (add_event e w) = trace w ++ [e].
Proof. done. Qed.

Lemma foldl_add_stdout ls w :
  foldl (fun w l => add_stdout l w) w ls
  = mk_World (cwd w) (connection_file w) (sqlite_env w) (databases w) (handle w)
             (stdout w ++ ls) (trace w).
Proof.
  revert w. induction ls as [|l ls IH]; intros w; cbn [foldl].
  { rewrite app_nil_r. by destruct w. }
  rewrite IH. unfold add_stdout. cbn [cwd connection_file sqlite_env databases handle stdout trace].
  by rewrite <- app_assoc.
Qed.

Create Rewrite HintDb world.
#[global] Hint Rewrite
  cwd_set_connection_file connection_file_set_connection_file sqlite_env_set_connection_file databases_set_connection_file
  handle_set_connection_file stdout_set_connection_file trace_set_connection_file cwd_set_sqlite_env
  connection_file_set_sqlite_env sqlite_env_set_sqlite_env databases_set_sqlite_env handle_set_sqlite_env
  stdout_set_sqlite_env trace_set_sqlite_env cwd_set_databases connection_file_set_databases
  sqlite_env_set_databases databases_set_databases handle_set_databases stdout_set_databases
  trace_set_databases cwd_set_handle connection_file_set_handle sqlite_env_set_handle
  databases_set_handle handle_set_handle stdout_set_handle trace_set_handle
  cwd_add_stdout connection_file_add_stdout sqlite_env_add_stdout databases_add_stdout
  handle_add_stdout stdout_add_stdout trace_add_stdout cwd_add_event
  connection_file_add_event sqlite_env_add_event databases_add_event handle_add_event
  stdout_add_event trace_add_event
  foldl_add_stdout : world.

(** Read a field of a world through the updates made to it. *)
Ltac world_fields :=
  autorewrite with world in *;
  cbn [cwd connection_file sqlite_env databases handle stdout trace fst snd] in *.

(** ** Every path through [main] *)

Lemma persist_and_report_frame E cw p counts w :
  let w' := (persist_and_report E cw p counts w).1 in
  cwd w' = cwd w ∧ databases w' = databases w ∧ handle w' = handle w
  ∧ ∃ rest, trace w' = trace w ++ rest
            ∧ rest `prefix_of` [EvWriteConnectionFile; EvWriteSqliteEnv].
Proof.
  rewrite persist_and_report_unfold. cbn zeta.
  destruct (fails E Sys_open_connection_file).
  { world_fields. do 3 (split; [done|]).
    exists []. rewrite app_nil_r. split; [done|]. by eexists. }
  destruct (write_all (connection_file_lines _) []) as [bc [e|[]]].
  { world_fields. do 3 (split; [done|]).
    exists [EvWriteConnectionFile]. world_fields. split; [done|]. by eexists. }
  destruct (fails E Sys_makedirs_db_visualizer).
  { world_fields. do 3 (split; [done|]).
    exists [EvWriteConnectionFile]. world_fields. split; [done|]. by eexists. }
  destruct (fails E Sys_open_sqlite_env).
  { world_fields. do 3 (split; [done|]).
    exists [EvWriteConnectionFile]. world_fields. split; [done|]. by eexists. }
  destruct (write_all [_] []) as [be [e|[]]];
    world_fields; do 3 (split; [done|]);
    exists [EvWriteConnectionFile; EvWriteSqliteEnv];
    world_fields; rewrite <- app_assoc; (split; [done|]); by exists [].
Qed.

(** Up to the connection nothing is opened and nothing is written. *)
Lemma main_stops_early E w :
  (∃ e, db_path_of w = inl e)
  ∨ (∃ p, db_path_of w = inr p
          ∧ (fails E (Sys_mkdir (Path_parent p)) = true ∨ fails E Sys_connect = true)) →
  let w' := (main E w).1 in
  trace w' = trace w ∧ handle w' = handle w ∧ databases w' = databases w
  ∧ connection_file w' = connection_file w ∧ sqlite_env w' = sqlite_env w
  ∧ ∃ e, (main E w).2 = inl e.
Proof.
  intros H. rewrite main_unfold. cbn zeta.
  destruct (db_path_of w) as [e|p]; [world_fields; eauto 10|].
  destruct (fails E (Sys_mkdir _)) eqn:F1; [world_fields; eauto 10|].
  destruct (fails E Sys_connect) eqn:F2; [world_fields; eauto 10|].
  destruct H as [[e [=]]|(p' & [= <-] & [F|F])]; congruence.
Qed.

(** Once connected, the connection is closed whatever happens next, and
    closed before either descriptor is opened for writing; no database
    file but the one of the run changes. *)
Lemma main_connected E w p :
  db_path_of w = inr p →
  fails E (Sys_mkdir (Path_parent p)) = false →
  fails E Sys_connect = false →
  let w' := (main E w).1 in
  handle w' = None
  ∧ cwd w' = cwd w
  ∧ (∀ k, k ≠ db_file w p → databases w' !! k = databases w !! k)
  ∧ (∃ rest, trace w' = trace w ++ EvConnect (Path_str p) :: EvClose :: rest
             ∧ rest `prefix_of` [EvWriteConnectionFile; EvWriteSqliteEnv])
  ∧ (Exists (fun c => fails E c = true) engine_calls →
     (main E w).2 = inl sqlite3_Error
     ∧ trace w' = trace w ++ [EvConnect (Path_str p); EvClose]
     ∧ connection_file w' = connection_file w
     ∧ sqlite_env w' = sqlite_env w).
Proof.
  intros Hp F1 F2. rewrite main_unfold, Hp. cbn zeta. rewrite F1, F2.
  pose proof (engine_op_reconcile E) as Hop.
  match goal with |- context [reconcile_and_count E ?w3] =>
    specialize (Hop w3); pose proof (reconcile_success E w3) as Hok;
    destruct (reconcile_and_count E w3) as [w4 [e|counts]] end;
  cbn [fst snd] in Hop; destruct Hop as ((C & F & S & O & T) & Hh & Hd & He);
  world_fields; cbn [fmap option_fmap option_map conn_file] in Hd, Hh.
  - specialize (He e eq_refl) as ->.
    split; [done|]. split; [done|]. split.
    { intros k Hk. rewrite Hd by congruence. by apply lookup_insert_ne. }
    split. { exists []. world_fields. rewrite T, <- app_assoc. split; [done|]. by eexists. }
    intros _. world_fields. rewrite T, <- app_assoc. done.
  - pose proof (persist_and_report_frame E (cwd w) p counts
                  (set_handle None (add_event EvClose w4))) as (C' & D' & H' & rest & T' & Hrest).
    world_fields.
    split; [done|]. split; [congruence|]. split.
    { intros k Hk. rewrite D', Hd by congruence. by apply lookup_insert_ne. }
    split. { exists rest. world_fields. rewrite T', T, <- !app_assoc. done. }
    intros Hex. exfalso.
    destruct (Hok _ _ _ eq_refl eq_refl eq_refl) as (Hall & _).
    apply Exists_exists in Hex as (c & Hin & Hc).
    unfold engine_calls in Hin. apply elem_of_cons in Hin as [->|Hin]; [congruence|].
    rewrite Forall_forall in Hall. rewrite (Hall c) in Hc; [done|]. exact Hin.
Qed.

Lemma main_connect_fails E w p :
  db_path_of w = inr p →
  fails E (Sys_mkdir (Path_parent p)) = false →
  fails E Sys_connect = true →
  (main E w).2 = inl sqlite3_Error.
Proof. intros Hp F1 F2. rewrite main_unfold, Hp. cbn zeta. by rewrite F1, F2. Qed.

(** C8.  Whatever fails, the run ends with no connection open: either it
    stopped before connecting, or the connection it opened was closed, and
    closed before any descriptor was opened for writing.  When a call to
    the storage engine fails, the run ends in [sqlite3.Error] and neither
    descriptor is written. *)
Theorem C8_connection_closed_on_every_path E w :
  handle w = None →
  let w' := (main E w).1 in
  handle w' = None
  ∧ (∃ new, trace w' = trace w ++ new
       ∧ (new = []
          ∨ ∃ f rest, new = EvConnect f :: EvClose :: rest
               ∧ rest `prefix_of` [EvWriteConnectionFile; EvWriteSqliteEnv]))
  ∧ (∀ p, db_path_of w = inr p →
       fails E (Sys_mkdir (Path_parent p)) = false →
       Exists (fun c => fails E c = true) engine_calls →
       (main E w).2 = inl sqlite3_Error
       ∧ connection_file w' = connection_file w
       ∧ sqlite_env w' = sqlite_env w
       ∧ (trace w' = trace w ∨ trace w' = trace w ++ [EvConnect (Path_str p); EvClose])).
Proof.
  intros Hh. cbn zeta.
  destruct (db_path_of w) as [e|p] eqn:Hp.
  { destruct (main_stops_early E w) as (T & H & _); [eauto|].
    split; [congruence|]. split; [|done].
    exists []. rewrite app_nil_r. auto. }
  destruct (fails E (Sys_mkdir (Path_parent p))) eqn:F1.
  { destruct (main_stops_early E w) as (T & H & _); [eauto 10|].
    split; [congruence|]. split; [|intros p' [= <-] F; congruence].
    exists []. rewrite app_nil_r. auto. }
  destruct (fails E Sys_connect) eqn:F2.
  { destruct (main_stops_early E w) as (T & H & _ & Fc & Fe & _); [eauto 10|].
    split; [congruence|]. split.
    { exists []. rewrite app_nil_r. auto. }
    intros p' [= <-] _ _. rewrite (main_connect_fails E w p) by done. auto. }
  destruct (main_connected E w p Hp F1 F2) as (H & _ & _ & (rest & T & Hrest) & Hfail).
  split; [done|]. split.
  { eexists. split; [exact T|]. right. eauto. }
  intros p' [= <-] _ Hex. destruct (Hfail Hex) as (R & T' & Fc & Fe). auto.
Qed.

(** ** The resolver *)

Lemma parse_recorded b content group1 :
  read_text b = inr content →
  re_search file_path_re content = Some group1 →
  _parse_db_path_from_connection_file (Some (mk_file true b))
  = inr (if str_eqb (strip group1) [] then None else Some (Path_of_str (strip group1))).
Proof.
  intros Hr Hs. unfold _parse_db_path_from_connection_file, open_read, os_path_exists.
  cbn [negb]. rewrite Hr, Hs. by destruct (str_eqb _ _).
Qed.

(** C1.  When the descriptor can be read and the pattern matches with a
    capture that is not blank, the run settles on the recorded path; the
    one connection it opens is to that path, and no other database file
    is touched. *)
Theorem C1_recorded_path_wins E w b content group1 :
  connection_file w = Some (mk_file true b) →
  read_text b = inr content →
  re_search file_path_re content = Some group1 →
  strip group1 ≠ [] →
  let recorded := Path_of_str (strip group1) in
  db_path_of w = inr recorded
  ∧ (fails E (Sys_mkdir (Path_parent recorded)) = false →
     fails E Sys_connect = false →
     let w' := (main E w).1 in
     (∃ rest, trace w' = trace w ++ EvConnect (Path_str recorded) :: EvClose :: rest
              ∧ rest `prefix_of` [EvWriteConnectionFile; EvWriteSqliteEnv])
     ∧ (∀ k, k ≠ db_file w recorded → databases w' !! k = databases w !! k)).
Proof.
  intros Hf Hr Hs Hne. cbn zeta.
  assert (db_path_of w = inr (Path_of_str (strip group1))) as Hp.
  { unfold db_path_of. rewrite Hf, (parse_recorded _ _ _ Hr Hs).
    unfold str_eqb. by rewrite bool_decide_eq_false_2. }
  split; [done|]. intros F1 F2.
  destruct (main_connected E w _ Hp F1 F2) as (_ & _ & Hd & Ht & _). done.
Qed.

Lemma Path_myapp_db : Path_of_str (lit "myapp.db") = mkPath [] [lit "myapp.db"].
Proof. reflexivity. Qed.

Lemma joinpath_myapp_db c :
  joinpath c (lit "myapp.db") = mkPath (root c) (parts c ++ [lit "myapp.db"]).
Proof. unfold joinpath. rewrite Path_myapp_db. reflexivity. Qed.


(** C3.  The resolver is claimed never to raise, whatever bytes the
    descriptor holds.  It catches [OSError] only: on a file that is not
    valid UTF-8 (here the single byte 0xFF) [f.read()] raises
    [UnicodeDecodeError], which passes through the resolver and ends the
    run before any database is opened. *)
Theorem C3_undecodable_descriptor_raises :
  _parse_db_path_from_connection_file (connection_file undecodable_world)
  = inl UnicodeDecodeError
  ∧ ∀ E,
      (main E undecodable_world).2 = inl UnicodeDecodeError
      ∧ trace (main E undecodable_world).1 = [].
Proof.
  split; [reflexivity|]. intros E.
  assert (db_path_of undecodable_world = inl UnicodeDecodeError) as Hp by reflexivity.
  split.
  - rewrite main_unfold, Hp. reflexivity.
  - destruct (main_stops_early E undecodable_world) as (T & _); [eauto|]. exact T.
Qed.

(** ** Absolute and relative paths *)

Lemma is_absolute_Path_of_str s :
  is_absolute (Path_of_str s) = bool_decide (head s = Some SLASH).
Proof.
  unfold is_absolute, Path_of_str, parse_root, str_eqb. cbn.
  destruct s as [|c1 s]; [done|]. cbn.
  destruct (N.eqb_spec c1 SLASH) as [->|Hc].
  - rewrite (bool_decide_eq_true_2 (Some SLASH = Some SLASH)) by done.
    destruct s as [|c2 s]; [done|].
    destruct (c2 =? SLASH); [|done].
    destruct s as [|c3 s]; [done|]. by destruct (c3 =? SLASH).
  - rewrite (bool_decide_eq_false_2 (Some c1 = Some SLASH)) by congruence. done.
Qed.

Lemma is_absolute_resolve cwd p :
  is_absolute (Path_of_str cwd) = true → is_absolute (resolve cwd p) = true.
Proof.
  intros Hc. unfold resolve. destruct (is_absolute p); [done|]. exact Hc.
Qed.

(** C6, as stated, fails: a recorded relative path is not made absolute
    before the database is opened.  With [# File path: data/app.db] in the
    descriptor the run settles on the relative path [data/app.db] and
    passes that very text to [sqlite3.connect]. *)
Lemma C6_recorded_relative_path_is_used_as_is :
  is_absolute (Path_of_str (cwd relative_world)) = true
  ∧ db_path_of relative_world = inr (Path_of_str (lit "data/app.db"))
  ∧ is_absolute (Path_of_str (lit "data/app.db")) = false
  ∧ trace (main quiet_env relative_world).1
    = [EvConnect (lit "data/app.db"); EvClose; EvWriteConnectionFile; EvWriteSqliteEnv].
Proof. vm_compute. done. Qed.

(** C6, amended.  The path of a run is absolute when the resolver finds no
    path, and when the recorded text begins with a slash; a recorded
    text that does not is used as it is.  What is written to the
    descriptors, [db_path.resolve()], is absolute in every case. *)
Theorem C6_absolute_unless_recorded_relative w p :
  is_absolute (Path_of_str (cwd w)) = true →
  db_path_of w = inr p →
  (_parse_db_path_from_connection_file (connection_file w) = inr None →
   is_absolute p = true)
  ∧ (∀ b content group1,
       connection_file w = Some (mk_file true b) →
       read_text b = inr content →
       re_search file_path_re content = Some group1 →
       strip group1 ≠ [] →
       p = Path_of_str (strip group1)
       ∧ is_absolute p = bool_decide (head (strip group1) = Some SLASH))
  ∧ is_absolute (resolve (cwd w) p) = true.
Proof.
  intros Hc Hp. split; [|split].
  - intros Hn. unfold db_path_of in Hp. rewrite Hn in Hp. injection Hp as <-.
    rewrite joinpath_myapp_db. exact Hc.
  - intros b content group1 Hf Hr Hs Hne.
    unfold db_path_of in Hp. rewrite Hf, (parse_recorded _ _ _ Hr Hs) in Hp.
    unfold str_eqb in Hp. rewrite bool_decide_eq_false_2 in Hp by done.
    injection Hp as <-. split; [done|]. apply is_absolute_Path_of_str.
  - by apply is_absolute_resolve.
Qed.

(** ** UTF-8: decoding undoes encoding *)

Ltac divlia := zify; Z.to_euclidean_division_equations; lia.

Lemma to_N_byte_of n : n < 256 → Byte.to_N (byte_of n) = n.
Proof.
  intros Hn. unfold byte_of.
  pose proof (Byte.to_of_N_option_map n) as H.
  destruct (Byte.of_N n) as [b|]; cbn in H.
  - destruct (N.leb_spec n 255); [congruence|lia].
  - destruct (N.leb_spec n 255); [congruence|lia].
Qed.

(** Settle the comparisons of the decoder: those the bounds decide
    first, a case analysis on an equality test when nothing else moves. *)
Ltac decide_range :=
  match goal with
  | |- context [?a <? ?b] =>
      first [ replace (a <? b) with true by (symmetry; apply N.ltb_lt; divlia)
            | replace (a <? b) with false by (symmetry; apply N.ltb_ge; divlia) ]
  | |- context [?a <=? ?b] =>
      first [ replace (a <=? b) with true by (symmetry; apply N.leb_le; divlia)
            | replace (a <=? b) with false by (symmetry; apply N.leb_gt; divlia) ]
  end; cbn [andb orb negb].

Ltac decide_ranges :=
  unfold in_range, is_cont;
  repeat first
    [ decide_range
    | match goal with
      | |- context [?a =? ?b] => destruct (N.eqb_spec a b)
      end ].

Lemma utf8_decode_char c bs rest :
  utf8_encode_char c = Some bs →
  utf8_decode (map byte_of bs ++ rest) = cons c <$> utf8_decode rest.
Proof.
  unfold utf8_encode_char.
  destruct (N.ltb_spec c 128).
  { intros [= <-]. cbn [map app utf8_decode]. cbn zeta.
    rewrite to_N_byte_of by lia. decide_ranges. done. }
  destruct (N.ltb_spec c 2048).
  { intros [= <-]. cbn [map app utf8_decode]. cbn zeta.
    rewrite !to_N_byte_of by divlia.
    decide_ranges. f_equal. f_equal. divlia. }
  destruct (N.ltb_spec c 65536).
  { destruct (N.leb_spec 55296 c); cbn [andb].
    - destruct (N.ltb_spec c 57344); [discriminate|].
      intros [= <-]. cbn [map app utf8_decode]. cbn zeta.
      rewrite !to_N_byte_of by divlia.
      decide_ranges; f_equal; f_equal; divlia.
    - intros [= <-]. cbn [map app utf8_decode]. cbn zeta.
      rewrite !to_N_byte_of by divlia.
      decide_ranges; f_equal; f_equal; divlia. }
  destruct (N.ltb_spec c 1114112); [|discriminate].
  intros [= <-]. cbn [map app utf8_decode]. cbn zeta.
  rewrite !to_N_byte_of by divlia.
  decide_ranges; f_equal; f_equal; divlia.
Qed.

Lemma utf8_decode_encode s b : utf8_encode s = Some b → utf8_decode b = Some s.
Proof.
  revert b. induction s as [|c s IH]; intros b; cbn.
  { by intros [= <-]. }
  destruct (utf8_encode_char c) as [bs|] eqn:Hc; [|done].
  destruct (utf8_encode s) as [rest|]; [|done].
  intros [= <-]. rewrite (utf8_decode_char _ _ _ Hc), (IH rest eq_refl). done.
Qed.

Lemma utf8_encode_app s1 s2 :
  utf8_encode (s1 ++ s2)
  = b1 ← utf8_encode s1; b2 ← utf8_encode s2; Some (b1 ++ b2).
Proof.
  induction s1 as [|c s1 IH]; cbn.
  { by destruct (utf8_encode s2). }
  rewrite IH. destruct (utf8_encode_char c); [|done]. cbn.
  destruct (utf8_encode s1); [|done]. cbn.
  destruct (utf8_encode s2); [|done]. cbn. by rewrite app_assoc.
Qed.

(** What a completed [with open(...)] block wrote is the encoding of the
    chunks, one after the other. *)
Lemma write_all_done chunks written b :
  write_all chunks written = (b, inr ()) →
  ∃ b', utf8_encode (concat chunks) = Some b' ∧ b = written ++ b'.
Proof.
  revert written. induction chunks as [|s chunks IH]; intros written; cbn.
  { intros [= <-]. exists []. by rewrite app_nil_r. }
  unfold write_all; fold write_all.
  destruct (utf8_encode s) as [bs|] eqn:Hs; [|done].
  intros H. apply IH in H as (b' & Hb' & ->).
  exists (bs ++ b'). rewrite utf8_encode_app, Hs, Hb'. cbn. by rewrite app_assoc.
Qed.

Lemma universal_newlines_id s : CR ∉ s → universal_newlines s = s.
Proof.
  induction s as [|c s IH]; [done|]. intros H.
  apply not_elem_of_cons in H as [Hc Hs]. cbn.
  destruct (N.eqb_spec c CR); [congruence|]. by rewrite IH.
Qed.

(** ** The descriptor a run writes *)

(** C7.  A run that completes leaves in [db_connection.txt] the encoding
    of four lines and nothing else, whatever the file held before: the
    header, the hint with the file name, the connection string and the
    [# File path:] line, the last two with the resolved path, which is
    absolute. *)
Theorem C7_connection_file_rewritten E w w' :
  is_absolute (Path_of_str (cwd w)) = true →
  main E w = (w', inr ()) →
  ∃ p bc,
    db_path_of w = inr p
    ∧ is_absolute (resolve (cwd w) p) = true
    ∧ connection_file w'
      = Some (mk_file (default true (readable <$> connection_file w)) bc)
    ∧ utf8_decode bc
      = Some (concat
          [ lit "# SQLite connection methods:" ++ [LF];
            lit "# Python: sqlite3.connect('" ++ Path_name (resolve (cwd w) p)
              ++ lit "')" ++ [LF];
            lit "# Connection string: sqlite:///" ++ Path_str (resolve (cwd w) p) ++ [LF];
            lit "# File path: " ++ Path_str (resolve (cwd w) p) ++ [LF] ]).
Proof.
  intros Hc H. apply main_success in H as (p & d' & bc & be & Hp & _ & _ & Hbc & _ & ->).
  exists p, bc. split; [done|]. split; [by apply is_absolute_resolve|].
  split; [done|].
  apply write_all_done in Hbc as (b' & Hb' & ->). cbn [app].
  apply utf8_decode_encode in Hb'. rewrite Hb'. reflexivity.
Qed.

(** ** [Path(str(p))] is [p] *)

Lemma split_no_sep sep x : sep ∉ x → split sep x = [x].
Proof.
  induction x as [|c x IH]; [done|]. intros H.
  apply not_elem_of_cons in H as [Hc Hx]. cbn.
  destruct (N.eqb_spec c sep); [congruence|]. by rewrite IH.
Qed.

Lemma split_app_sep sep x t : sep ∉ x → split sep (x ++ sep :: t) = x :: split sep t.
Proof.
  induction x as [|c x IH]; intros H; cbn.
  { by rewrite N.eqb_refl. }
  apply not_elem_of_cons in H as [Hc Hx].
  destruct (N.eqb_spec c sep); [congruence|]. by rewrite IH.
Qed.

Lemma split_join sep ps :
  ps ≠ [] → Forall (fun x => sep ∉ x) ps → split sep (join [sep] ps) = ps.
Proof.
  induction ps as [|x ps IH]; [done|]. intros _ H.
  apply Forall_cons in H as [Hx Hps].
  destruct ps as [|y ps].
  { cbn. by apply split_no_sep. }
  change (join [sep] (x :: y :: ps)) with (x ++ sep :: join [sep] (y :: ps)).
  rewrite split_app_sep by done. by rewrite IH.
Qed.

Lemma filter_components ps :
  Forall (fun x => is_component x ∧ SLASH ∉ x) ps → filter is_component ps = ps.
Proof.
  induction 1 as [|x ps Hx _ IH]; [done|].
  rewrite filter_cons_True by apply Hx. by rewrite IH.
Qed.

Lemma join_head x ps :
  x ≠ [] → head (join [SLASH] (x :: ps)) = head x.
Proof. destruct x as [|c x]; [done|]. intros _. by destruct ps. Qed.

Lemma component_head x :
  is_component x ∧ SLASH ∉ x → ∃ c x', x = c :: x' ∧ c ≠ SLASH.
Proof.
  intros [[Hne _] Hs]. destruct x as [|c x']; [done|].
  apply not_elem_of_cons in Hs as [Hc _]. eauto.
Qed.

Lemma Path_of_str_Path_str p : wf_path p → Path_of_str (Path_str p) = p.
Proof.
  destruct p as [r ps]. intros [Hr Hps]. cbn in Hr, Hps.
  assert (filter is_component (split SLASH (join [SLASH] ps)) = ps) as Hsplit.
  { destruct ps as [|x ps]; [done|].
    rewrite split_join; [by apply filter_components|done|].
    eapply Forall_impl; [exact Hps|]. by intros ? [_ ?]. }
  unfold Path_of_str, Path_str. cbn [root parts].
  destruct Hr as [-> | [-> | ->]].
  - destruct ps as [|x ps]; [done|].
    cbn [app]. rewrite Hsplit. f_equal.
    apply Forall_cons in Hps as [Hx _].
    destruct (component_head x Hx) as (c & x' & -> & Hc).
    unfold parse_root. destruct ps; cbn; by destruct (N.eqb_spec c SLASH).
  - change ([SLASH] ++ join [SLASH] ps) with (SLASH :: join [SLASH] ps).
    cbn [split]. rewrite N.eqb_refl.
    rewrite filter_cons_False by (intros [? _]; done).
    rewrite Hsplit. f_equal.
    destruct ps as [|x ps]; [done|].
    apply Forall_cons in Hps as [Hx _].
    destruct (component_head x Hx) as (c & x' & -> & Hc).
    unfold parse_root. rewrite N.eqb_refl.
    destruct ps; cbn; by destruct (N.eqb_spec c SLASH).
  - change ([SLASH; SLASH] ++ join [SLASH] ps) with (SLASH :: SLASH :: join [SLASH] ps).
    cbn [split]. rewrite N.eqb_refl.
    rewrite !filter_cons_False by (intros [? _]; done).
    rewrite Hsplit. f_equal.
    destruct ps as [|x ps]; [done|].
    apply Forall_cons in Hps as [Hx _].
    destruct (component_head x Hx) as (c & x' & -> & Hc).
    unfold parse_root. rewrite N.eqb_refl.
    destruct ps; cbn; by destruct (N.eqb_spec c SLASH).
Qed.

Lemma split_no_slash sep s : Forall (fun x => sep ∉ x) (split sep s).
Proof.
  induction s as [|c s IH]; cbn.
  { repeat constructor. apply not_elem_of_nil. }
  destruct (N.eqb_spec c sep) as [->|Hc].
  { constructor; [apply not_elem_of_nil|done]. }
  destruct (split sep s) as [|h t].
  { repeat constructor. intros [?|?%elem_of_nil]%elem_of_cons; done. }
  apply Forall_cons in IH as [Hh Ht]. constructor; [|done].
  apply not_elem_of_cons. done.
Qed.

(** Every path built by [Path(s)] is in normal form. *)
Lemma Path_of_str_wf s : wf_path (Path_of_str s).
Proof.
  split.
  - unfold Path_of_str, parse_root. cbn.
    destruct s as [|c1 [|c2 [|c3 s]]]; cbn; auto;
      repeat match goal with |- context [?a =? ?b] => destruct (a =? b) end; auto.
  - cbn. apply Forall_forall. intros x Hx.
    apply list_elem_of_filter in Hx as [Hc Hx]. split; [done|].
    pose proof (split_no_slash SLASH s) as H. rewrite Forall_forall in H. auto.
Qed.

Lemma Path_str_nonempty p : wf_path p → Path_str p ≠ [].
Proof.
  destruct p as [r ps]. intros [Hr Hps]. unfold Path_str. cbn in *.
  destruct Hr as [-> | [-> | ->]]; [|done..].
  destruct ps as [|x ps]; [done|].
  apply Forall_cons in Hps as [Hx _].
  destruct (component_head x Hx) as (c & x' & -> & Hc). by destruct ps.
Qed.

Lemma elem_of_join c x ps : c ∈ x → x ∈ ps → c ∈ join [SLASH] ps.
Proof.
  intros Hc. induction ps as [|y ps IH]; [by intros ?%elem_of_nil|].
  intros Hx. apply elem_of_cons in Hx as [<-|Hx].
  - destruct ps; [done|]. cbn. apply elem_of_app. auto.
  - destruct ps as [|z ps]; [by apply elem_of_nil in Hx|].
    change (join [SLASH] (y :: z :: ps)) with (y ++ SLASH :: join [SLASH] (z :: ps)).
    apply elem_of_app. right. apply elem_of_cons. auto.
Qed.

(** The characters of [p.name] are characters of [str(p)]. *)
Lemma Path_name_chars p c : c ∈ Path_name p → c ∈ Path_str p.
Proof.
  destruct p as [r ps]. unfold Path_name, Path_str. cbn.
  destruct (last ps) as [x|] eqn:Hl; cbn; [|by intros ?%elem_of_nil].
  intros Hc. assert (x ∈ ps) as Hx.
  { apply list_elem_of_lookup. exists (pred (length ps)). by rewrite <- last_lookup. }
  assert (c ∈ r ++ join [SLASH] ps) as H.
  { apply elem_of_app. right. by eapply elem_of_join. }
  destruct r, ps; done.
Qed.

(** ** The pattern on the text the script writes *)

Lemma re_match_not_bol c s :
  c ≠ LF → re_match file_path_re (Some c) s [] [] = None.
Proof. intros Hc. cbn. by destruct (N.eqb_spec c LF). Qed.

(** A line on which the pattern does not match at its start is passed
    over: no other position of the line is at the beginning of a line. *)
Lemma re_search_skip_line line rest prev :
  LF ∉ line →
  re_match file_path_re prev (line ++ LF :: rest) [] [] = None →
  re_search_from file_path_re prev (line ++ LF :: rest)
  = re_search_from file_path_re (Some LF) rest.
Proof.
  revert prev. induction line as [|c line IH]; intros prev Hnl Hm.
  { cbn [app] in *. cbn [re_search_from]. by rewrite Hm. }
  apply not_elem_of_cons in Hnl as [Hc Hnl].
  cbn [app] in *. cbn [re_search_from]. rewrite Hm.
  apply IH; [done|]. apply re_match_not_bol. congruence.
Qed.

(** The longest run of a class is tried first. *)
Lemma greedy_longest {R} cls (k : option char → str → option R) x rest r :
  Forall (fun c => cls c = true) x →
  match rest with c :: _ => cls c = false | [] => True end →
  (∀ prev, k prev rest = Some r) →
  ∀ prev, greedy cls k prev (x ++ rest) = Some r.
Proof.
  intros Hx Hrest Hk. induction Hx as [|c x Hc _ IH]; intros prev.
  - cbn [app]. destruct rest as [|c rest]; cbn; [done|]. by rewrite Hrest.
  - cbn. by rewrite Hc, IH.
Qed.

(** Trailing white space and the end of the line, once the capture [t]
    is closed at a line feed. *)
Lemma re_match_after_capture pv t rest :
  re_match [RClose; RStar isspace; REol] pv (LF :: rest) (t ++ LF :: rest) [] = Some t.
Proof.
  unfold re_match.
  replace (take _ _) with t.
  2:{ symmetry. apply take_app_length'. rewrite length_app. cbn [length]. lia. }
  unfold greedy at 1; fold (@greedy str).
  change (isspace LF) with true. cbn iota.
  match goal with |- match ?g with _ => _ end = _ => destruct g as [r|] eqn:Hg end.
  2:{ unfold at_eol. by rewrite N.eqb_refl. }
  f_equal. revert r Hg. generalize (Some LF).
  induction rest as [|a rest IH]; intros pv' r.
  { cbn. by intros [= <-]. }
  unfold greedy; fold (@greedy str).
  destruct (isspace a).
  - destruct (greedy isspace _ (Some a) rest) as [r'|] eqn:Hg'.
    + apply IH in Hg'. by intros [= <-].
    + unfold at_eol. destruct (a =? LF); [by intros [= <-]|done].
  - unfold at_eol. destruct (a =? LF); [by intros [= <-]|done].
Qed.

(** The [# File path:] line as the script writes it captures its text. *)
Lemma re_match_file_path_line prev t rest :
  at_bol prev = true →
  LF ∉ t →
  (∃ c t', t = c :: t' ∧ isspace c = false) →
  re_match file_path_re prev (lit "# File path: " ++ t ++ LF :: rest) [] [] = Some t.
Proof.
  intros Hb Hnl (c & t' & -> & Hc).
  apply not_elem_of_cons in Hnl as [Hc' Hnl].
  change (lit "# File path: " ++ (c :: t') ++ LF :: rest)
    with (35 :: 32 :: lit "File path:" ++ 32 :: c :: t' ++ LF :: rest).
  unfold file_path_re.
  change (lit "File path:") with [70; 105; 108; 101; 32; 112; 97; 116; 104; 58].
  cbn [app map re_match]. rewrite Hb. rewrite N.eqb_refl.
  unfold greedy at 1. change (isspace 32) with true. change (isspace 70) with false.
  cbn iota. cbn [N.eqb Pos.eqb].
  unfold greedy at 1. change (isspace 32) with true. cbn iota.
  rewrite Hc.
  assert (dot c = true) as Hd by (unfold dot; by destruct (N.eqb_spec c LF)).
  rewrite Hd.
  erewrite (greedy_longest dot _ t' (LF :: rest)); [done| | |].
  - apply Forall_forall. intros a Ha. unfold dot.
    destruct (N.eqb_spec a LF); [congruence|done].
  - done.
  - intros pv. apply (re_match_after_capture pv (c :: t') rest).
Qed.

Lemma lstrip_id s :
  (∀ c, head s = Some c → isspace c = false) → lstrip s = s.
Proof. destruct s as [|c s]; [done|]. intros H. cbn -[isspace]. by rewrite H. Qed.

Lemma head_rev (s : str) : head (rev s) = last s.
Proof.
  induction s as [|c s _] using rev_ind; [done|].
  by rewrite rev_unit, last_snoc.
Qed.

Lemma strip_id s :
  (∀ c, head s = Some c → isspace c = false) →
  (∀ c, last s = Some c → isspace c = false) →
  strip s = s.
Proof.
  intros Hh Hl. unfold strip, rstrip. rewrite (lstrip_id s Hh).
  rewrite lstrip_id; [apply rev_involutive|].
  intros c Hc. apply Hl. by rewrite <- head_rev.
Qed.

(** ** Writing the descriptor and reading it back *)

Lemma lit_no_newline (s : string) :
  bool_decide ((LF ∉ lit s) ∧ (CR ∉ lit s)) = true → (LF ∉ lit s) ∧ (CR ∉ lit s).
Proof. apply bool_decide_eq_true_1. Qed.

Lemma re_search_from_match p prev s r :
  re_match p prev s [] [] = Some r → re_search_from p prev s = Some r.
Proof. intros H. destruct s; cbn [re_search_from]; by rewrite H. Qed.

(** In the text the writer produces for [p], the first match of the
    pattern is on the last line and captures [str(p)]. *)
Lemma re_search_written_text name t :
  LF ∉ name → LF ∉ t →
  (∃ c t', t = c :: t' ∧ isspace c = false) →
  re_search file_path_re
    (lit "# SQLite connection methods:" ++ LF
     :: (lit "# Python: sqlite3.connect('" ++ name ++ lit "')") ++ LF
     :: (lit "# Connection string: sqlite:///" ++ t) ++ LF
     :: lit "# File path: " ++ t ++ [LF])
  = Some t.
Proof.
  intros Hname Ht Hhead. unfold re_search.
  rewrite re_search_skip_line; [|by apply lit_no_newline|reflexivity].
  rewrite re_search_skip_line; [| |reflexivity].
  2:{ rewrite !not_elem_of_app. split; [by apply lit_no_newline|].
      split; [done|]. by apply lit_no_newline. }
  rewrite re_search_skip_line; [| |reflexivity].
  2:{ rewrite !not_elem_of_app. split; [by apply lit_no_newline|done]. }
  apply re_search_from_match. by apply (re_match_file_path_line (Some LF) t []).
Qed.

Lemma connection_file_text p :
  concat (connection_file_lines p)
  = lit "# SQLite connection methods:" ++ LF
    :: (lit "# Python: sqlite3.connect('" ++ Path_name p ++ lit "')") ++ LF
    :: (lit "# Connection string: sqlite:///" ++ Path_str p) ++ LF
    :: lit "# File path: " ++ Path_str p ++ [LF].
Proof.
  unfold connection_file_lines. cbn [concat].
  rewrite <- !app_assoc. reflexivity.
Qed.

(** A file that decodes to the text of the writer is parsed to [p]. *)
Lemma parse_written_text p b :
  wf_path p →
  one_clean_line (Path_str p) →
  utf8_decode b = Some (concat (connection_file_lines p)) →
  _parse_db_path_from_connection_file (Some (mk_file true b)) = inr (Some p).
Proof.
  intros Hwf (Hlf & Hcr & Hhead & Hlast) Hb.
  assert ((LF ∉ Path_name p) ∧ (CR ∉ Path_name p)) as [Hnlf Hncr].
  { split; intros H%Path_name_chars; done. }
  assert (∃ c t', Path_str p = c :: t' ∧ isspace c = false) as Hc.
  { pose proof (Path_str_nonempty p Hwf) as Hne.
    destruct (Path_str p) as [|c t'] eqn:Ht; [done|]. exists c, t'. split; [done|].
    by apply Hhead. }
  assert (read_text b = inr (concat (connection_file_lines p))) as Hr.
  { unfold read_text. rewrite Hb. f_equal. apply universal_newlines_id.
    rewrite connection_file_text.
    repeat (rewrite not_elem_of_app || rewrite not_elem_of_cons).
    pose proof (lit_no_newline "# SQLite connection methods:" eq_refl) as [_ ?].
    pose proof (lit_no_newline "# Python: sqlite3.connect('" eq_refl) as [_ ?].
    pose proof (lit_no_newline "')" eq_refl) as [_ ?].
    pose proof (lit_no_newline "# Connection string: sqlite:///" eq_refl) as [_ ?].
    pose proof (lit_no_newline "# File path: " eq_refl) as [_ ?].
    repeat split; try done. apply not_elem_of_nil. }
  rewrite (parse_recorded _ _ _ Hr
             (eq_trans (f_equal _ (connection_file_text p))
                       (re_search_written_text _ _ Hnlf Hlf Hc))).
  rewrite (strip_id _ Hhead Hlast).
  unfold str_eqb. rewrite bool_decide_eq_false_2 by by apply Path_str_nonempty.
  by rewrite Path_of_str_Path_str.
Qed.

(** C10, amended.  For a path in normal form whose text is one line, free
    of line feeds and of carriage returns, with no white space at either
    end, the resolver reads back from the file the writer produced exactly
    that path. *)
Theorem C10_written_path_is_read_back p b :
  wf_path p →
  one_clean_line (Path_str p) →
  write_all (connection_file_lines p) [] = (b, inr ()) →
  _parse_db_path_from_connection_file (Some (mk_file true b)) = inr (Some p).
Proof.
  intros Hwf Hclean Hw.
  apply write_all_done in Hw as (b' & Hb' & ->). cbn [app].
  apply utf8_decode_encode in Hb'.
  by apply parse_written_text.
Qed.

(** C10, as stated, fails on a path whose text holds a carriage return:
    it has no line feed and no white space at either end, the writer
    writes it, and reading in text mode turns the carriage return into a
    line feed, so that the resolver reads back [/a]. *)
Lemma C10_carriage_return_ends_the_line :
  wf_path cr_path
  ∧ (LF ∉ Path_str cr_path)
  ∧ (∀ c, head (Path_str cr_path) = Some c → isspace c = false)
  ∧ (∀ c, last (Path_str cr_path) = Some c → isspace c = false)
  ∧ ∃ b, write_all (connection_file_lines cr_path) [] = (b, inr ())
         ∧ _parse_db_path_from_connection_file (Some (mk_file true b))
           = inr (Some (Path_of_str (lit "/a")))
         ∧ Path_of_str (lit "/a") ≠ cr_path.
Proof.
  split; [apply Path_of_str_wf|].
  split; [by apply (bool_decide_eq_true_1 _)|].
  split; [by intros c [= <-]|]. split; [by intros c [= <-]|].
  eexists. split; [vm_compute; reflexivity|].
  split; [vm_compute; reflexivity|]. discriminate.
Qed.

(** ** The second run finds the database of the first *)

Lemma collapse_Forall (P : str → Prop) seen ps :
  Forall P seen → Forall P ps → Forall P (collapse seen ps).
Proof.
  intros Hs Hps. revert seen Hs. induction Hps as [|x ps Hx _ IH]; intros seen Hs; cbn.
  { by apply Forall_rev. }
  destruct (str_eqb x (lit "..")).
  - apply IH. destruct Hs; [constructor|done].
  - apply IH. by constructor.
Qed.

Lemma resolve_wf cwd p : wf_path p → wf_path (resolve cwd p).
Proof.
  intros [Hr Hps]. destruct (Path_of_str_wf cwd) as [Hcr Hcps].
  unfold resolve. destruct (is_absolute p); split; cbn [root parts]; auto.
  - by apply collapse_Forall.
  - apply collapse_Forall; [constructor|]. by apply Forall_app.
Qed.

Lemma db_path_of_wf w p : db_path_of w = inr p → wf_path p.
Proof.
  unfold db_path_of, _parse_db_path_from_connection_file.
  destruct (negb _).
  2: destruct (open_read _) as [[]|content]; try discriminate;
     [|destruct (re_search _ _) as [g|]; [destruct (str_eqb _ _)|]].
  all: intros [= <-]; try apply Path_of_str_wf.
  all: rewrite joinpath_myapp_db; destruct (Path_of_str_wf (cwd w)) as [Hr Hps];
    split; [done|]; cbn [parts]; apply Forall_app; split; [done|];
    repeat constructor; by apply (bool_decide_eq_true_1 _).
Qed.

Lemma collapse_no_dotdot seen ps :
  lit ".." ∉ seen → lit ".." ∉ collapse seen ps.
Proof.
  revert seen. induction ps as [|x ps IH]; intros seen Hs; cbn.
  { by rewrite list_elem_of_In, <- in_rev, <- list_elem_of_In. }
  unfold str_eqb. case_bool_decide as Hx.
  - apply IH. destruct seen; [done|]. by apply not_elem_of_cons in Hs as [_ ?].
  - apply IH. apply not_elem_of_cons. split; [congruence|done].
Qed.

Lemma collapse_id seen ps :
  lit ".." ∉ ps → collapse seen ps = rev seen ++ ps.
Proof.
  revert seen. induction ps as [|x ps IH]; intros seen Hps; cbn.
  { by rewrite app_nil_r. }
  apply not_elem_of_cons in Hps as [Hx Hps].
  unfold str_eqb. rewrite bool_decide_eq_false_2 by congruence.
  rewrite IH by done. cbn. by rewrite <- app_assoc.
Qed.

(** Resolving a resolved path changes nothing, the working directory
    being [/...] as [os.getcwd()] returns it. *)
Lemma resolve_idem cwd p :
  root (Path_of_str cwd) = [SLASH] → resolve cwd (resolve cwd p) = resolve cwd p.
Proof.
  intros Hc.
  assert (root (resolve cwd p) = [SLASH]) as Hr.
  { unfold resolve. by destruct (is_absolute p). }
  assert (lit ".." ∉ parts (resolve cwd p)) as Hp.
  { unfold resolve. destruct (is_absolute p); apply collapse_no_dotdot, not_elem_of_nil. }
  unfold resolve at 1. unfold is_absolute. rewrite Hr.
  change (negb (str_eqb [SLASH] [])) with true. cbn iota.
  rewrite collapse_id by done. cbn [rev app].
  destruct (resolve cwd p) as [r ps]. cbn in *. by subst.
Qed.

Lemma db_file_resolved w p : wf_path p → db_file w p = Path_str (resolve (cwd w) p).
Proof. intros Hwf. unfold db_file, db_file_of. by rewrite Path_of_str_Path_str. Qed.

(** After a run that completes, with a working directory under [/] and a
    resolved path that is one clean line, the next run settles on the
    same database file. *)
Lemma second_run_same_file E w0 w1 p0 :
  main E w0 = (w1, inr ()) →
  db_path_of w0 = inr p0 →
  root (Path_of_str (cwd w0)) = [SLASH] →
  one_clean_line (Path_str (resolve (cwd w0) p0)) →
  ∃ p1, db_path_of w1 = inr p1 ∧ db_file w1 p1 = db_file w0 p0.
Proof.
  intros H Hp0 Hc Hclean.
  apply main_success in H as (p & d1 & bc & be & Hp & _ & _ & Hbc & _ & ->).
  rewrite Hp0 in Hp. injection Hp as <-.
  pose proof (db_path_of_wf _ _ Hp0) as Hwf0.
  pose proof (resolve_wf (cwd w0) p0 Hwf0) as Hwfr.
  apply write_all_done in Hbc as (b' & Hb' & ->). cbn [app] in *.
  apply utf8_decode_encode in Hb'.
  unfold db_path_of at 1. cbn [world_after connection_file cwd].
  destruct (connection_file w0) as [[[] old]|] eqn:Hf0;
    unfold overwrite; cbn [fmap option_fmap option_map readable default id].
  - exists (resolve (cwd w0) p0).
    rewrite (parse_written_text _ _ Hwfr Hclean Hb'). split; [reflexivity|].
    rewrite !db_file_resolved by done. cbn [world_after cwd].
    by rewrite resolve_idem.
  - unfold db_path_of in Hp0. rewrite Hf0 in Hp0.
    change (_parse_db_path_from_connection_file (Some (mk_file false old)))
      with (@inr exn _ (@None Path)) in Hp0.
    change (_parse_db_path_from_connection_file (Some (mk_file false b')))
      with (@inr exn _ (@None Path)).
    injection Hp0 as <-. eexists. split; reflexivity.
  - exists (resolve (cwd w0) p0).
    rewrite (parse_written_text _ _ Hwfr Hclean Hb'). split; [reflexivity|].
    rewrite !db_file_resolved by done. cbn [world_after cwd].
    by rewrite resolve_idem.
Qed.

(** ** The theorems at work on concrete worlds *)

Lemma C1_recorded_path_wins_witness :
  db_path_of recorded_world = inr (Path_of_str (lit "/tmp/x/custom.db"))
  ∧ ∃ rest, trace (main quiet_env recorded_world).1
            = [EvConnect (lit "/tmp/x/custom.db"); EvClose] ++ rest.
Proof.
  destruct (C1_recorded_path_wins quiet_env recorded_world
              (default [] (utf8_encode (lit "# File path: /tmp/x/custom.db" ++ [LF])))
              (lit "# File path: /tmp/x/custom.db" ++ [LF])
              (lit "/tmp/x/custom.db"))
    as [Hp Hrun].
  - reflexivity.
  - vm_compute. reflexivity.
  - vm_compute. reflexivity.
  - vm_compute. discriminate.
  - split; [exact Hp|].
    destruct (Hrun eq_refl eq_refl) as [(rest & Ht & _) _].
    exists rest. exact Ht.
Defined.


Lemma C4_second_run_changes_nothing_witness :
  ∃ d1 d2,
    databases (main quiet_env used_world).1 !! lit "/srv/app/myapp.db" = Some d1
    ∧ databases (main quiet_env (main quiet_env used_world).1).1
        !! lit "/srv/app/myapp.db" = Some d2
    ∧ schema d2 = schema d1
    ∧ metadata d2 = metadata d1
    ∧ todos d1 = todos used_db
    ∧ todos d2 = todos d1.
Proof.
  destruct (C4_second_run_changes_nothing quiet_env quiet_env used_world
              (main quiet_env used_world).1
              (main quiet_env (main quiet_env used_world).1).1
              (Path_of_str (lit "/srv/app/myapp.db")))
    as (d1 & d2 & H1 & H2 & HS & HM & HT1 & HT2 & _).
  - vm_compute. reflexivity.
  - vm_compute. reflexivity.
  - vm_compute. reflexivity.
  - reflexivity.
  - exists d1, d2.
    split; [exact H1|]. split; [exact H2|]. split; [exact HS|].
    split; [exact HM|]. split; [exact HT1|exact HT2].
Defined.

Lemma C5_metadata_rows_after_run_witness :
  ∃ d',
    databases (main quiet_env used_world).1 !! lit "/srv/app/myapp.db" = Some d'
    ∧ rows_with_other_keys d' = rows_with_other_keys used_db
    ∧ length (rows_with_key (lit "project_name") d') = 1%nat
    ∧ length (rows_with_key (lit "version") d') = 1%nat.
Proof.
  destruct (C5_metadata_rows_after_run quiet_env used_world (main quiet_env used_world).1
              (Path_of_str (lit "/srv/app/myapp.db")))
    as (d' & Hd & _ & Ho & Hk).
  - vm_compute. reflexivity.
  - vm_compute. reflexivity.
  - destruct (Hk eq_refl) as (H1 & H2 & _).
    exists d'. split; [exact Hd|]. split; [exact Ho|]. split; [exact H1|exact H2].
Defined.

Lemma C6_absolute_unless_recorded_relative_witness :
  is_absolute (Path_of_str (lit "/srv/app/myapp.db")) = true
  ∧ is_absolute (resolve (cwd fresh_world) (Path_of_str (lit "/srv/app/myapp.db"))) = true.
Proof.
  destruct (C6_absolute_unless_recorded_relative fresh_world
              (Path_of_str (lit "/srv/app/myapp.db"))) as (Hd & _ & Hr).
  - reflexivity.
  - reflexivity.
  - split; [apply Hd; reflexivity|exact Hr].
Defined.

Lemma C7_connection_file_rewritten_witness :
  ∃ p bc,
    db_path_of recorded_world = inr p
    ∧ is_absolute (resolve (cwd recorded_world) p) = true
    ∧ connection_file (main quiet_env recorded_world).1
      = Some (mk_file (default true (readable <$> connection_file recorded_world)) bc)
    ∧ utf8_decode bc
      = Some (concat
          [ lit "# SQLite connection methods:" ++ [LF];
            lit "# Python: sqlite3.connect('" ++ Path_name (resolve (cwd recorded_world) p)
              ++ lit "')" ++ [LF];
            lit "# Connection string: sqlite:///"
              ++ Path_str (resolve (cwd recorded_world) p) ++ [LF];
            lit "# File path: " ++ Path_str (resolve (cwd recorded_world) p) ++ [LF] ]).
Proof.
  apply (C7_connection_file_rewritten quiet_env recorded_world
           (main quiet_env recorded_world).1).
  - reflexivity.
  - vm_compute. reflexivity.
Defined.

Lemma C8_connection_closed_on_every_path_witness :
  handle (main commit_fails used_world).1 = None
  ∧ (main commit_fails used_world).2 = inl sqlite3_Error
  ∧ connection_file (main commit_fails used_world).1 = connection_file used_world
  ∧ sqlite_env (main commit_fails used_world).1 = sqlite_env used_world.
Proof.
  destruct (C8_connection_closed_on_every_path commit_fails used_world) as (H & _ & Hfail).
  - reflexivity.
  - destruct (Hfail (Path_of_str (lit "/srv/app/myapp.db"))) as (R & Hc & He & _).
    + vm_compute. reflexivity.
    + reflexivity.
    + unfold engine_calls. do 8 apply Exists_cons_tl. apply Exists_cons_hd. reflexivity.
    + split; [exact H|]. split; [exact R|]. split; [exact Hc|exact He].
Defined.

Lemma C9_todos_rows_kept_witness :
  ∃ d',
    databases (main quiet_env used_world).1 !! lit "/srv/app/myapp.db" = Some d'
    ∧ todos d' = todos used_db
    ∧ (∀ row, row ∈ default [] (todos used_db) → row ∈ default [] (todos d'))
    ∧ lit "  Todos: 1" ∈ stdout (main quiet_env used_world).1.
Proof.
  destruct (C9_todos_rows_kept quiet_env used_world (main quiet_env used_world).1)
    as (p & d' & Hp & Hd & HT & Hrows & Hout).
  - vm_compute. reflexivity.
  - vm_compute in Hp. injection Hp as <-.
    exists d'. split; [exact Hd|]. split; [exact HT|]. split; [exact Hrows|exact Hout].
Defined.

Lemma C10_written_path_is_read_back_witness :
  _parse_db_path_from_connection_file
    (Some (mk_file true
       (write_all (connection_file_lines (Path_of_str (lit "/srv/app/myapp.db"))) []).1))
  = inr (Some (Path_of_str (lit "/srv/app/myapp.db"))).
Proof.
  apply (C10_written_path_is_read_back (Path_of_str (lit "/srv/app/myapp.db"))).
  - apply Path_of_str_wf.
  - split; [by apply (bool_decide_eq_true_1 _)|].
    split; [by apply (bool_decide_eq_true_1 _)|].
    split; by intros c [= <-].
  - vm_compute. reflexivity.
Defined.

(** * Further properties of the script *)

(** ** The database on every path through the [try] block *)

(** A leaf of the case analysis in which nothing was committed to
    [app_info]. *)
Ltac disk_unchanged Hd :=
  rewrite ?insert_insert_eq, ?lookup_insert_eq, ?Hd;
  eexists; (split; [reflexivity|]);
  unfold user_data_kept, create_app_info, create_todos, set_wal; cbn;
  (split; [by eauto 10|]);
  (split; [|left; by eauto]);
  let HF := fresh "HF" in
  intros HF; cbn in HF;
  first [ by eauto 10
        | exfalso; repeat (apply Forall_cons in HF as [? HF]); congruence ].

(** A leaf after the commit. *)
Ltac disk_reconciled L1 L2 :=
  rewrite ?insert_insert_eq, ?lookup_insert_eq;
  eexists; (split; [reflexivity|]);
  unfold user_data_kept; cbn;
  (split; [by eauto 10|]);
  (split; [by eauto 10|]); right;
  split;
  [ unfold reconciled; rewrite create_tables_index; cbn;
    rewrite insert_or_replace_table, L1; cbn;
    rewrite insert_or_replace_table, L2; reflexivity
  | repeat (constructor; [assumption|]); constructor ].

(** Wherever the [try] block stops, the database file of the connection
    keeps the user's data, and [app_info] is either as it was or as a
    whole run leaves it. *)
Lemma reconcile_on_disk E w c d :
  handle w = Some c → conn_txn c = None →
  databases w !! conn_file c = Some d →
  ∃ d',
    databases (reconcile_and_count E w).1 !! conn_file c = Some d'
    ∧ user_data_kept d d'
    ∧ (Forall (fun call => fails E call = false) (take 5 (tail engine_calls)) →
       is_Some (app_info d') ∧ is_Some (todos d')
       ∧ idx_todos_completed d' = true ∧ journal_wal d' = true)
    ∧ ((default [] (app_info d') = default [] (app_info d)
        ∧ app_info_seq d' = app_info_seq d
        ∧ (reconcile_and_count E w).2 = inl sqlite3_Error)
       ∨ (reconciled E d = Some d'
          ∧ Forall (fun call => fails E call = false) (take 8 (tail engine_calls)))).
Proof.
  destruct w as [cw cf se dbs h out tr], c as [f txn fk], d as [[rows|] u sq t i o j];
    cbn; intros -> -> Hd;
    unfold reconcile_and_count, _ensure_schema, execute, commit, fetch_count;
    unfold mbind, M_bind, bind, mret, M_ret, ret, the_handle, get, modify, sys, raise,
      ddl, write_disk, set_txn, on_disk;
    cbn.
  all: run_call; [disk_unchanged Hd|].
  all: run_call; [disk_unchanged Hd|]; rewrite Hd; cbn.
  all: run_call; [disk_unchanged Hd|]; rewrite ?lookup_insert_eq, ?insert_insert_eq; cbn.
  all: run_call; [disk_unchanged Hd|]; rewrite ?lookup_insert_eq, ?insert_insert_eq; cbn.
  all: run_call; [disk_unchanged Hd|]; rewrite ?lookup_insert_eq, ?insert_insert_eq; cbn.
  all: rewrite create_tables_index; cbn.
  all: run_call; [disk_unchanged Hd|]; rewrite ?lookup_insert_eq, ?insert_insert_eq; cbn.
  all: rewrite insert_or_replace_table.
  all: match goal with |- context [(max_rowid <=? ?m)%Z] =>
         destruct (max_rowid <=? m)%Z eqn:L1 end; cbn; [disk_unchanged Hd|].
  all: run_call; [disk_unchanged Hd|].
  all: rewrite insert_or_replace_table.
  all: match goal with |- context [(max_rowid <=? ?m)%Z] =>
         destruct (max_rowid <=? m)%Z eqn:L2 end; cbn; [disk_unchanged Hd|].
  all: run_call; [disk_unchanged Hd|]; rewrite ?insert_insert_eq.
  all: run_call; [disk_reconciled L1 L2|];
       rewrite ?lookup_insert_eq, ?insert_insert_eq; cbn.
  all: run_call; [disk_reconciled L1 L2|];
       rewrite ?lookup_insert_eq, ?insert_insert_eq; cbn.
  all: run_call; [disk_reconciled L1 L2|];
       rewrite ?lookup_insert_eq, ?insert_insert_eq; cbn.
  all: disk_reconciled L1 L2.
Qed.

(** The same for a whole run that got as far as connecting. *)
Lemma main_on_disk E w p :
  db_path_of w = inr p →
  fails E (Sys_mkdir (Path_parent p)) = false →
  fails E Sys_connect = false →
  ∃ d',
    databases (main E w).1 !! db_file w p = Some d'
    ∧ user_data_kept (db_before w p) d'
    ∧ (Forall (fun call => fails E call = false) (take 5 (tail engine_calls)) →
       is_Some (app_info d') ∧ is_Some (todos d')
       ∧ idx_todos_completed d' = true ∧ journal_wal d' = true)
    ∧ ((default [] (app_info d') = default [] (app_info (db_before w p))
        ∧ app_info_seq d' = app_info_seq (db_before w p)
        ∧ (main E w).2 = inl sqlite3_Error
        ∧ connection_file (main E w).1 = connection_file w
        ∧ sqlite_env (main E w).1 = sqlite_env w)
       ∨ (reconciled E (db_before w p) = Some d'
          ∧ Forall (fun call => fails E call = false) (take 8 (tail engine_calls)))).
Proof.
  intros Hp F1 F2. rewrite main_unfold, Hp. cbn zeta. rewrite F1, F2.
  match goal with |- context [reconcile_and_count E ?w3] =>
    destruct (reconcile_on_disk E w3 (mk_Connection (db_file w p) None false)
                (db_before w p)) as (d' & Hd' & Hk & Hddl & Hcase);
      [reflexivity|reflexivity|world_fields; apply lookup_insert_eq|];
    pose proof (engine_op_reconcile E w3) as ((_ & Hcf & Hse & _) & _);
    destruct (reconcile_and_count E w3) as [w4 [e|counts]] eqn:HR
  end; cbn [fst snd conn_file] in Hd', Hcase, Hcf, Hse; exists d'.
  - world_fields. split; [done|]. split; [done|]. split; [done|].
    destruct Hcase as [(? & ? & He)|?]; [left|by right].
    injection He as ->. world_fields. done.
  - destruct (persist_and_report_frame E (cwd w) p counts
                (set_handle None (add_event EvClose w4))) as (_ & D & _).
    rewrite D. world_fields. split; [done|]. split; [done|]. split; [done|].
    destruct Hcase as [(_ & _ & [=])|?]. by right.
Qed.

(** ** What a run never does *)

Lemma user_data_kept_refl d : user_data_kept d d.
Proof. by repeat split. Qed.

(** X1.  Whatever fails, a run leaves every database file but its own
    untouched, and in its own it keeps the rows of [todos], the other
    tables, the tables that existed and every [app_info] row of a key
    other than [project_name] and [version]. *)
Theorem X1_user_data_kept_on_every_path E w p d :
  db_path_of w = inr p →
  databases w !! db_file w p = Some d →
  (∀ k, k ≠ db_file w p → databases (main E w).1 !! k = databases w !! k)
  ∧ ∃ d',
      databases (main E w).1 !! db_file w p = Some d'
      ∧ user_data_kept d d'
      ∧ rows_with_other_keys d' = rows_with_other_keys d.
Proof.
  intros Hp Hd.
  assert (db_before w p = d) as Hb by (unfold db_before; by rewrite Hd).
  destruct (fails E (Sys_mkdir (Path_parent p))) eqn:F1;
    [|destruct (fails E Sys_connect) eqn:F2].
  1,2: destruct (main_stops_early E w) as (_ & _ & -> & _); [eauto 10|];
       split; [done|]; exists d; split; [done|]; split; [apply user_data_kept_refl|done].
  destruct (main_connected E w p Hp F1 F2) as (_ & _ & Hother & _).
  split; [exact Hother|].
  destruct (main_on_disk E w p Hp F1 F2) as (d' & Hd' & Hk & _ & Hcase).
  rewrite Hb in Hk, Hcase. exists d'. split; [done|]. split; [done|].
  destruct Hcase as [(Ha & _)|(HR & _)].
  - unfold rows_with_other_keys. by rewrite Ha.
  - by eapply reconciled_other_keys.
Qed.

Lemma X1_user_data_kept_on_every_path_witness :
  ∃ d',
    databases (main commit_fails used_world).1 !! lit "/srv/app/myapp.db" = Some d'
    ∧ user_data_kept used_db d'
    ∧ rows_with_other_keys d' = rows_with_other_keys used_db.
Proof.
  destruct (X1_user_data_kept_on_every_path commit_fails used_world
              (Path_of_str (lit "/srv/app/myapp.db")) used_db) as (_ & H).
  - vm_compute. reflexivity.
  - vm_compute. reflexivity.
  - exact H.
Defined.

(** X2.  The two upserts are one transaction: whatever fails once the run
    is connected, the rows of [app_info] in the file are either the rows
    that were there, and the run ended in [sqlite3.Error] with no
    descriptor written, or the rows a complete run leaves, both new rows
    among them. *)
Theorem X2_metadata_all_or_nothing E w p :
  db_path_of w = inr p →
  fails E (Sys_mkdir (Path_parent p)) = false →
  fails E Sys_connect = false →
  ∃ d',
    databases (main E w).1 !! db_file w p = Some d'
    ∧ ((default [] (app_info d') = default [] (app_info (db_before w p))
        ∧ app_info_seq d' = app_info_seq (db_before w p)
        ∧ (main E w).2 = inl sqlite3_Error
        ∧ connection_file (main E w).1 = connection_file w
        ∧ sqlite_env (main E w).1 = sqlite_env w)
       ∨ (app_info d' = Some (reconciled_rows E (db_before w p))
          ∧ app_info_seq d' = (last_rowid (db_before w p) + 2)%Z
          ∧ (last_rowid (db_before w p) + 2 ≤ max_rowid)%Z)).
Proof.
  intros Hp F1 F2.
  destruct (main_on_disk E w p Hp F1 F2) as (d' & Hd' & _ & _ & Hcase).
  exists d'. split; [done|].
  destruct Hcase as [?|(HR & _)]; [by left|right].
  by apply reconciled_inv in HR as (? & ->).
Qed.

Lemma X2_metadata_all_or_nothing_witness :
  ∃ d',
    databases (main commit_fails used_world).1 !! lit "/srv/app/myapp.db" = Some d'
    ∧ app_info d' = app_info used_db
    ∧ (main commit_fails used_world).2 = inl sqlite3_Error.
Proof.
  destruct (X2_metadata_all_or_nothing commit_fails used_world
              (Path_of_str (lit "/srv/app/myapp.db"))) as (d' & Hd' & Hcase).
  - vm_compute. reflexivity.
  - reflexivity.
  - reflexivity.
  - exists d'. split; [exact Hd'|].
    split; [|vm_compute; reflexivity].
    vm_compute in Hd'. injection Hd' as <-. reflexivity.
Defined.

(** X3.  The tables are not part of that transaction: once the two
    pragmas and the three [CREATE] statements have run, both tables and
    the index exist in the file and it is in WAL mode, whatever fails
    afterwards. *)
Theorem X3_tables_outlive_a_failed_run E w p :
  db_path_of w = inr p →
  fails E (Sys_mkdir (Path_parent p)) = false →
  fails E Sys_connect = false →
  Forall (fun call => fails E call = false) (take 5 (tail engine_calls)) →
  ∃ d',
    databases (main E w).1 !! db_file w p = Some d'
    ∧ is_Some (app_info d') ∧ is_Some (todos d')
    ∧ idx_todos_completed d' = true ∧ journal_wal d' = true.
Proof.
  intros Hp F1 F2 HF.
  destruct (main_on_disk E w p Hp F1 F2) as (d' & Hd' & _ & Hddl & _).
  exists d'. split; [done|]. by apply Hddl.
Qed.

Lemma X3_tables_outlive_a_failed_run_witness :
  (main commit_fails fresh_world).2 = inl sqlite3_Error
  ∧ ∃ d',
      databases (main commit_fails fresh_world).1 !! lit "/srv/app/myapp.db" = Some d'
      ∧ is_Some (app_info d') ∧ is_Some (todos d')
      ∧ idx_todos_completed d' = true ∧ journal_wal d' = true.
Proof.
  split; [vm_compute; reflexivity|].
  apply (X3_tables_outlive_a_failed_run commit_fails fresh_world
           (Path_of_str (lit "/srv/app/myapp.db"))).
  - vm_compute. reflexivity.
  - reflexivity.
  - reflexivity.
  - repeat constructor.
Defined.

(** X14.  When fewer than two rowids are left in [app_info] (the
    largest is [2^63 - 1]) a run that connects ends in [sqlite3.Error],
    also when the first of the two rows could still be added: the table
    and its sequence are as they were, and no descriptor is written. *)
Theorem X14_rowids_used_up E w p :
  db_path_of w = inr p →
  fails E (Sys_mkdir (Path_parent p)) = false →
  fails E Sys_connect = false →
  (max_rowid < last_rowid (db_before w p) + 2)%Z →
  (main E w).2 = inl sqlite3_Error
  ∧ connection_file (main E w).1 = connection_file w
  ∧ sqlite_env (main E w).1 = sqlite_env w
  ∧ ∃ d',
      databases (main E w).1 !! db_file w p = Some d'
      ∧ default [] (app_info d') = default [] (app_info (db_before w p))
      ∧ app_info_seq d' = app_info_seq (db_before w p).
Proof.
  intros Hp F1 F2 Hfull.
  destruct (main_on_disk E w p Hp F1 F2) as (d' & Hd' & _ & _ & Hcase).
  destruct Hcase as [(HA & HS & HR & Hc & He)|(HR & _)].
  - do 3 (split; [done|]). by exists d'.
  - apply reconciled_inv in HR as (? & _). lia.
Qed.

Lemma X14_rowids_used_up_witness :
  (main quiet_env nearly_full_world).2 = inl sqlite3_Error
  ∧ ∃ d',
      databases (main quiet_env nearly_full_world).1 !! lit "/srv/app/myapp.db" = Some d'
      ∧ default [] (app_info d') = default [] (app_info nearly_full_db).
Proof.
  destruct (X14_rowids_used_up quiet_env nearly_full_world
              (Path_of_str (lit "/srv/app/myapp.db")))
    as (R & _ & _ & d' & Hd' & HA & _).
  - vm_compute. reflexivity.
  - reflexivity.
  - reflexivity.
  - vm_compute. reflexivity.
  - split; [exact R|]. exists d'. split; [exact Hd'|exact HA].
Defined.

(** ** The environment file and the statistics *)

(** X4.  A run that completes leaves in [db_visualizer/sqlite.env] one
    line and nothing else, whatever the file held before:
    [export SQLITE_DB=] and, between double quotes, the resolved path,
    which is absolute. *)
Theorem X4_sqlite_env_rewritten E w w' :
  is_absolute (Path_of_str (cwd w)) = true →
  main E w = (w', inr ()) →
  ∃ p be,
    db_path_of w = inr p
    ∧ is_absolute (resolve (cwd w) p) = true
    ∧ sqlite_env w' = Some (mk_file (default true (readable <$> sqlite_env w)) be)
    ∧ utf8_decode be
      = Some (lit "export SQLITE_DB=" ++ [34] ++ Path_str (resolve (cwd w) p) ++ [34; LF]).
Proof.
  intros Hc H. apply main_success in H as (p & d' & bc & be & Hp & _ & _ & _ & Hbe & ->).
  exists p, be. split; [done|]. split; [by apply is_absolute_resolve|].
  split; [done|].
  apply write_all_done in Hbe as (b' & Hb' & ->). cbn [app].
  apply utf8_decode_encode in Hb'. rewrite Hb'.
  cbn [concat]. by rewrite app_nil_r.
Qed.

Lemma X4_sqlite_env_rewritten_witness :
  ∃ be,
    sqlite_env (main quiet_env moved_world).1 = Some (mk_file true be)
    ∧ utf8_decode be
      = Some (lit "export SQLITE_DB=" ++ [34] ++ lit "/tmp/x/custom.db" ++ [34; LF]).
Proof.
  destruct (X4_sqlite_env_rewritten quiet_env moved_world (main quiet_env moved_world).1)
    as (p & be & Hp & _ & Hf & Hb).
  - reflexivity.
  - vm_compute. reflexivity.
  - exists be. split; [exact Hf|].
    vm_compute in Hp. injection Hp as <-. exact Hb.
Defined.

(** X5.  The lines a run that completes prints are the first line and the
    report, and the statistics in it are those of the database it found:
    two tables more than the other tables whose name is not
    [LIKE 'sqlite_%'] (six letters [sqlite] in any case and one more
    character at least), two metadata rows more than the rows of other
    keys, or than all the rows when [app_info] has no [UNIQUE] constraint
    on [key], and the todos that were there. *)
Theorem X5_statistics_of_a_run E w w' :
  main E w = (w', inr ()) →
  ∃ p,
    db_path_of w = inr p
    ∧ let d := db_before w p in
      drop (length (stdout w)) (stdout w')
      = lit "Starting SQLite setup..."
        :: report (bool_decide (is_Some (databases w !! db_file w p))) (cwd w) p
             (2 + N.of_nat (length (filter (fun n => like_sqlite_ n = false) (other_tables d))),
              2 + N.of_nat (length (if unique_key d then rows_with_other_keys d
                                    else default [] (app_info d))),
              N.of_nat (length (default [] (todos d)))).
Proof.
  intros H. apply main_success in H as (p & d' & bc & be & Hp & _ & Hd & _ & _ & ->).
  exists p. split; [done|]. cbn zeta.
  cbn [world_after stdout]. rewrite drop_app_length. do 2 f_equal.
  apply reconciled_inv in Hd as (_ & ->).
  unfold counts_of, count_user_tables, reconciled_rows.
  cbn [app_info todos other_tables default id].
  rewrite length_app. cbn [length]. repeat f_equal; lia.
Qed.

Lemma X5_statistics_of_a_run_witness :
  drop 0 (stdout (main quiet_env used_world).1)
  = lit "Starting SQLite setup..."
    :: report true (lit "/srv/app") (Path_of_str (lit "/srv/app/myapp.db")) (3, 3, 1).
Proof.
  destruct (X5_statistics_of_a_run quiet_env used_world (main quiet_env used_world).1)
    as (p & Hp & H).
  - vm_compute. reflexivity.
  - vm_compute in Hp. injection Hp as <-. exact H.
Defined.

(** ** The ids of the metadata rows *)

(** X6.  On the table of the script a run that completes does not update
    the two metadata rows, it makes them anew: with [s] the larger of
    the sequence of [app_info] and of the largest id in the table as the
    run found it, the row of [project_name] has id [s + 1] and the row
    of [version] id [s + 2], each with the time of its statement, and
    the sequence is left at [s + 2], which is a rowid.  Ids that were
    distinct stay distinct, and none is above the sequence. *)
Theorem X6_metadata_rows_get_new_ids E w w' p :
  db_path_of w = inr p →
  unique_key (db_before w p) = true →
  main E w = (w', inr ()) →
  ∃ d',
    databases w' !! db_file w p = Some d'
    ∧ let d := db_before w p in
      let s := last_rowid d in
      rows_with_key (lit "project_name") d'
      = [ mk_app_info_row (s + 1) (lit "project_name") (Some (lit "simple-to-do-list"))
            (current_timestamp E
               (INSERT_OR_REPLACE_INTO_app_info (lit "project_name") (lit "simple-to-do-list"))) ]
      ∧ rows_with_key (lit "version") d'
        = [ mk_app_info_row (s + 2) (lit "version") (Some (lit "0.1.0"))
              (current_timestamp E
                 (INSERT_OR_REPLACE_INTO_app_info (lit "version") (lit "0.1.0"))) ]
      ∧ app_info_seq d' = (s + 2)%Z
      ∧ (s + 2 ≤ max_rowid)%Z
      ∧ (NoDup (ai_id <$> default [] (app_info d)) → ids_ok d').
Proof.
  intros Hp0 Hu H.
  apply main_success in H as (p' & d' & bc & be & Hp & _ & Hd & _ & _ & ->).
  rewrite Hp0 in Hp. injection Hp as <-.
  exists d'. split; [apply world_after_db|]. cbn zeta.
  apply reconciled_inv in Hd as (Hroom & ->).
  pose proof project_name_ne_version as Hne.
  unfold rows_with_key, ids_ok, reconciled_rows. rewrite Hu.
  cbn [app_info app_info_seq default id].
  rewrite !filter_app, !rows_with_other_keys_key by auto.
  rewrite (filter_cons_True (λ r, ai_key r = lit "project_name")) by done.
  rewrite (filter_cons_False (λ r, ai_key r = lit "project_name")) by (cbn; congruence).
  rewrite (filter_cons_False (λ r, ai_key r = lit "version")) by (cbn; congruence).
  rewrite (filter_cons_True (λ r, ai_key r = lit "version")) by done.
  rewrite !filter_nil. do 4 (split; [done|]).
  unfold last_rowid in *.
  set (rows := default [] (app_info (db_before w p))) in *.
  assert (∀ r, r ∈ rows_with_other_keys (db_before w p) → (ai_id r ≤ max_id rows)%Z) as Hold.
  { intros r Hr. apply max_id_elem.
    unfold rows_with_other_keys in Hr. by apply list_elem_of_filter in Hr as [_ ?]. }
  intros Hnd. split.
  - rewrite fmap_app. apply NoDup_app. split; [|split].
    + unfold rows_with_other_keys. fold rows.
      eapply sublist_NoDup; [exact Hnd|]. apply fmap_sublist, sublist_filter.
    + intros i (r & -> & Hr%Hold)%list_elem_of_fmap. cbn.
      rewrite !elem_of_cons, elem_of_nil. lia.
    + cbn. apply NoDup_cons. split; [|apply NoDup_singleton].
      rewrite elem_of_cons, elem_of_nil. lia.
  - apply Forall_app. split.
    + apply Forall_forall. intros r Hr%Hold. lia.
    + repeat constructor; cbn; lia.
Qed.

Lemma X6_metadata_rows_get_new_ids_witness :
  ∃ d',
    databases (main quiet_env used_world).1 !! lit "/srv/app/myapp.db" = Some d'
    ∧ (ai_id <$> rows_with_key (lit "project_name") d') = [8%Z]
    ∧ (ai_id <$> rows_with_key (lit "version") d') = [9%Z]
    ∧ app_info_seq d' = 9%Z.
Proof.
  destruct (X6_metadata_rows_get_new_ids quiet_env used_world (main quiet_env used_world).1
              (Path_of_str (lit "/srv/app/myapp.db")))
    as (d' & Hd' & H1 & H2 & H3 & _).
  - vm_compute. reflexivity.
  - reflexivity.
  - vm_compute. reflexivity.
  - exists d'. split; [exact Hd'|]. rewrite H1, H2, H3.
    vm_compute. split; [reflexivity|]. split; reflexivity.
Defined.

(** ** Failures once the database is committed *)

(** With a path, its directory and every call to the storage engine
    going through, and two rowids left, a run comes to the descriptors
    with the database committed and closed and two lines printed. *)
Lemma main_reaches_descriptors E w p :
  db_path_of w = inr p →
  fails E (Sys_mkdir (Path_parent p)) = false →
  Forall (fun call => fails E call = false) engine_calls →
  (last_rowid (db_before w p) + 2 ≤ max_rowid)%Z →
  ∃ d',
    reconciled E (db_before w p) = Some d'
    ∧ main E w
      = persist_and_report E (cwd w) p (counts_of d')
          (mk_World (cwd w) (connection_file w) (sqlite_env w)
             (<[db_file w p := d']> (databases w)) None
             (stdout w
              ++ [ lit "Starting SQLite setup...";
                   hd [] (report (bool_decide (is_Some (databases w !! db_file w p)))
                            (cwd w) p (0, 0, 0)) ])
             (trace w ++ [EvConnect (Path_str p); EvClose])).
Proof.
  intros Hp F1 HF Hroom. rewrite main_unfold, Hp. cbn zeta. rewrite F1.
  unfold engine_calls in HF. apply Forall_cons in HF as [F2 HF]. rewrite F2.
  match goal with |- context [reconcile_and_count E ?w3] =>
    destruct (reconcile_returns_calls E w3 _ eq_refl eq_refl HF) as (w4 & counts & HR)
  end.
  { unfold on_disk.
    cbn [handle set_handle set_databases databases conn_file add_event add_stdout].
    by rewrite lookup_insert_eq. }
  rewrite HR.
  eapply reconcile_success in HR as (_ & d' & Hd' & -> & ->); [|reflexivity..].
  unfold on_disk in Hd'.
  cbn [handle set_handle set_databases databases conn_file add_event add_stdout] in Hd'.
  rewrite lookup_insert_eq in Hd'. cbn [default] in Hd'.
  exists d'. split; [exact Hd'|]. f_equal.
  apply World_eq; world_fields; try reflexivity.
  - apply insert_insert_eq.
  - by rewrite <- !app_assoc.
  - by rewrite <- !app_assoc.
Qed.

(** X7.  When [db_connection.txt] cannot be opened for writing, the run
    ends in [OSError] with the database already reconciled, committed and
    closed, and with both descriptors as they were. *)
Theorem X7_unwritable_descriptor_after_commit E w p :
  db_path_of w = inr p →
  fails E (Sys_mkdir (Path_parent p)) = false →
  Forall (fun call => fails E call = false) engine_calls →
  (last_rowid (db_before w p) + 2 ≤ max_rowid)%Z →
  fails E Sys_open_connection_file = true →
  let w' := (main E w).1 in
  (main E w).2 = inl OSError
  ∧ (∃ d', reconciled E (db_before w p) = Some d'
           ∧ databases w' !! db_file w p = Some d')
  ∧ handle w' = None
  ∧ connection_file w' = connection_file w
  ∧ sqlite_env w' = sqlite_env w
  ∧ trace w' = trace w ++ [EvConnect (Path_str p); EvClose].
Proof.
  intros Hp F1 HF Hroom F3. cbn zeta.
  destruct (main_reaches_descriptors E w p Hp F1 HF Hroom) as (d' & Hd' & ->).
  rewrite persist_and_report_unfold, F3. cbn [fst snd].
  split; [done|]. split; [|done].
  exists d'. split; [done|]. cbn. apply lookup_insert_eq.
Qed.

Lemma X7_unwritable_descriptor_after_commit_witness :
  (main connection_file_unwritable moved_world).2 = inl OSError
  ∧ connection_file (main connection_file_unwritable moved_world).1
    = connection_file moved_world
  ∧ sqlite_env (main connection_file_unwritable moved_world).1 = sqlite_env moved_world
  ∧ is_Some (databases (main connection_file_unwritable moved_world).1
               !! lit "/tmp/x/custom.db").
Proof.
  destruct (X7_unwritable_descriptor_after_commit connection_file_unwritable moved_world
              (Path_of_str (lit "/tmp/x/custom.db")))
    as (R & (d' & _ & Hd') & _ & Hc & He & _).
  - vm_compute. reflexivity.
  - reflexivity.
  - repeat constructor.
  - vm_compute. discriminate.
  - reflexivity.
  - split; [exact R|]. split; [exact Hc|]. split; [exact He|]. exists d'. exact Hd'.
Defined.

(** X8.  When [db_visualizer] cannot be created or [sqlite.env] cannot
    be opened, the run ends in [OSError] after [db_connection.txt] has
    been rewritten: the environment file stays as it was, possibly with
    another path than the descriptor, and none of the closing lines is
    printed. *)
Theorem X8_env_failure_after_descriptor E w p bc :
  db_path_of w = inr p →
  fails E (Sys_mkdir (Path_parent p)) = false →
  Forall (fun call => fails E call = false) engine_calls →
  (last_rowid (db_before w p) + 2 ≤ max_rowid)%Z →
  fails E Sys_open_connection_file = false →
  write_all (connection_file_lines (resolve (cwd w) p)) [] = (bc, inr ()) →
  fails E Sys_makedirs_db_visualizer = true ∨ fails E Sys_open_sqlite_env = true →
  let w' := (main E w).1 in
  (main E w).2 = inl OSError
  ∧ connection_file w' = overwrite (connection_file w) bc
  ∧ sqlite_env w' = sqlite_env w
  ∧ trace w' = trace w ++ [EvConnect (Path_str p); EvClose; EvWriteConnectionFile]
  ∧ length (stdout w') = (length (stdout w) + 2)%nat.
Proof.
  intros Hp F1 HF Hroom F3 Hbc F45. cbn zeta.
  destruct (main_reaches_descriptors E w p Hp F1 HF Hroom) as (d' & Hd' & ->).
  rewrite persist_and_report_unfold, F3, Hbc. cbn zeta.
  destruct (fails E Sys_makedirs_db_visualizer).
  - cbn [fst snd]. world_fields. rewrite <- app_assoc, length_app. done.
  - destruct F45 as [? | ->]; [done|].
    cbn [fst snd]. world_fields. rewrite <- app_assoc, length_app. done.
Qed.

Lemma X8_env_failure_after_descriptor_witness :
  (main no_db_visualizer moved_world).2 = inl OSError
  ∧ connection_file (main no_db_visualizer moved_world).1
    = Some (mk_file true
        (write_all (connection_file_lines (Path_of_str (lit "/tmp/x/custom.db"))) []).1)
  ∧ sqlite_env (main no_db_visualizer moved_world).1 = sqlite_env moved_world.
Proof.
  destruct (X8_env_failure_after_descriptor no_db_visualizer moved_world
              (Path_of_str (lit "/tmp/x/custom.db"))
              (write_all (connection_file_lines
                            (resolve (lit "/srv/app") (Path_of_str (lit "/tmp/x/custom.db")))) []).1)
    as (R & Hc & He & _).
  - vm_compute. reflexivity.
  - reflexivity.
  - repeat constructor.
  - vm_compute. discriminate.
  - reflexivity.
  - vm_compute. reflexivity.
  - left. reflexivity.
  - split; [exact R|]. split; [|exact He]. rewrite Hc. vm_compute. reflexivity.
Defined.

Lemma utf8_encode_inside x t y :
  utf8_encode t = None → utf8_encode (x ++ t ++ y) = None.
Proof.
  intros Ht. rewrite !utf8_encode_app, Ht.
  by destruct (utf8_encode x).
Qed.

(** X9.  A resolved path that cannot be encoded (a name that is not
    UTF-8 is a lone surrogate in the string) makes the third [f.write]
    raise [UnicodeEncodeError], or the second when the file name itself
    cannot be encoded.  [db_connection.txt] is then left truncated: it
    holds the first line, or the first two, and no [# File path:] line;
    [sqlite.env] is not touched. *)
Theorem X9_unencodable_path_truncates_descriptor E w p :
  db_path_of w = inr p →
  fails E (Sys_mkdir (Path_parent p)) = false →
  Forall (fun call => fails E call = false) engine_calls →
  (last_rowid (db_before w p) + 2 ≤ max_rowid)%Z →
  fails E Sys_open_connection_file = false →
  utf8_encode (Path_str (resolve (cwd w) p)) = None →
  let w' := (main E w).1 in
  (main E w).2 = inl UnicodeEncodeError
  ∧ sqlite_env w' = sqlite_env w
  ∧ ∃ b n,
      connection_file w' = overwrite (connection_file w) b
      ∧ (n = 1 ∨ n = 2)%nat
      ∧ utf8_encode (concat (take n (connection_file_lines (resolve (cwd w) p)))) = Some b.
Proof.
  intros Hp F1 HF Hroom F3 Henc. cbn zeta.
  destruct (main_reaches_descriptors E w p Hp F1 HF Hroom) as (d' & Hd' & ->).
  rewrite persist_and_report_unfold, F3. cbn zeta.
  unfold connection_file_lines. cbn zeta.
  set (P := resolve (cwd w) p) in *.
  unfold write_all.
  destruct (utf8_encode (lit "# SQLite connection methods:" ++ [LF])) as [b1|] eqn:H1;
    [|by vm_compute in H1].
  assert (utf8_encode (lit "# Connection string: " ++ (lit "sqlite:///" ++ Path_str P) ++ [LF])
          = None) as H3.
  { apply utf8_encode_inside. rewrite utf8_encode_app, Henc.
    by destruct (utf8_encode (lit "sqlite:///")). }
  destruct (utf8_encode (lit "# Python: sqlite3.connect('" ++ Path_name P ++ lit "')" ++ [LF]))
    as [b2|] eqn:H2.
  - rewrite H3. cbn [fst snd]. world_fields. do 2 (split; [done|]).
    exists (([] ++ b1) ++ b2), 2%nat. split; [done|]. split; [auto|].
    cbn [take concat]. rewrite app_nil_r, utf8_encode_app, H1. cbn.
    rewrite H2. done.
  - cbn [fst snd]. world_fields. do 2 (split; [done|]).
    exists ([] ++ b1), 1%nat. split; [done|]. split; [auto|].
    cbn [take concat]. rewrite app_nil_r, H1. done.
Qed.

Lemma X9_unencodable_path_truncates_descriptor_witness :
  (main quiet_env surrogate_world).2 = inl UnicodeEncodeError
  ∧ sqlite_env (main quiet_env surrogate_world).1 = None.
Proof.
  destruct (X9_unencodable_path_truncates_descriptor quiet_env surrogate_world
              (Path_of_str (lit "/srv/" ++ [56448] ++ lit "/myapp.db")))
    as (R & He & _).
  - vm_compute. reflexivity.
  - reflexivity.
  - repeat constructor.
  - vm_compute. discriminate.
  - reflexivity.
  - vm_compute. reflexivity.
  - split; [exact R|exact He].
Defined.

(** ** Failures before the connection *)

(** X10.  When the directory of the database cannot be made, the run
    ends in [OSError] with one line printed; when the connection cannot
    be opened, in [sqlite3.Error] with two.  In both cases no database
    file is created or changed and no descriptor is written. *)
Theorem X10_nothing_created_before_connect E w p :
  db_path_of w = inr p →
  fails E (Sys_mkdir (Path_parent p)) = true ∨ fails E Sys_connect = true →
  let w' := (main E w).1 in
  (main E w).2
    = inl (if fails E (Sys_mkdir (Path_parent p)) then OSError else sqlite3_Error)
  ∧ stdout w'
    = stdout w ++ lit "Starting SQLite setup..."
      :: (if fails E (Sys_mkdir (Path_parent p)) then []
          else [ if bool_decide (is_Some (databases w !! db_file w p))
                 then lit "SQLite database already exists at " ++ Path_str p
                 else lit "Creating new SQLite database at " ++ Path_str p ++ lit "..." ])
  ∧ databases w' = databases w
  ∧ connection_file w' = connection_file w
  ∧ sqlite_env w' = sqlite_env w
  ∧ trace w' = trace w.
Proof.
  intros Hp HF. rewrite main_unfold, Hp. cbn zeta.
  destruct (fails E (Sys_mkdir (Path_parent p))) eqn:F1.
  { cbn [fst snd]. world_fields. done. }
  destruct HF as [?|F2]; [done|]. rewrite F2.
  cbn [fst snd]. world_fields. rewrite <- app_assoc.
  by destruct (bool_decide _).
Qed.

Lemma X10_nothing_created_before_connect_witness :
  (main no_mkdir fresh_world).2 = inl OSError
  ∧ stdout (main no_mkdir fresh_world).1 = [lit "Starting SQLite setup..."]
  ∧ databases (main no_mkdir fresh_world).1 = ∅.
Proof.
  destruct (X10_nothing_created_before_connect no_mkdir fresh_world
              (Path_of_str (lit "/srv/app/myapp.db")))
    as (R & Ho & Hd & _).
  - vm_compute. reflexivity.
  - left. reflexivity.
  - split; [exact R|]. split; [exact Ho|exact Hd].
Defined.

(** ** Descriptors that give no path *)

Lemma utf8_decode_after_text s b rest :
  utf8_encode s = Some b →
  utf8_decode (b ++ rest) = (s ++.) <$> utf8_decode rest.
Proof.
  revert b. induction s as [|c s IH]; intros b; cbn.
  { intros [= <-]. cbn. by destruct (utf8_decode rest). }
  destruct (utf8_encode_char c) as [bs|] eqn:Hc; [|done].
  destruct (utf8_encode s) as [b'|]; [|done].
  intros [= <-]. rewrite <- app_assoc, (utf8_decode_char _ _ _ Hc), (IH b' eq_refl).
  by destruct (utf8_decode rest).
Qed.

(** X11.  Bytes that are not UTF-8 anywhere in a readable descriptor stop
    the run, even after a well-formed [# File path:] line: when the file
    is the encoding of a text followed by bytes that cannot be decoded,
    the run ends in [UnicodeDecodeError] with its first line printed and
    nothing else done. *)
Theorem X11_invalid_bytes_after_text_stop_the_run E w text b rest :
  utf8_encode text = Some b →
  utf8_decode rest = None →
  connection_file w = Some (mk_file true (b ++ rest)) →
  main E w = (add_stdout (lit "Starting SQLite setup...") w, inl UnicodeDecodeError).
Proof.
  intros Hb Hrest Hf. rewrite main_unfold. cbn zeta.
  unfold db_path_of, _parse_db_path_from_connection_file, open_read, os_path_exists, read_text.
  rewrite Hf. cbn [negb]. by rewrite (utf8_decode_after_text _ _ _ Hb), Hrest.
Qed.

Lemma X11_invalid_bytes_after_text_stop_the_run_witness :
  main quiet_env cut_short_world
  = (add_stdout (lit "Starting SQLite setup...") cut_short_world, inl UnicodeDecodeError).
Proof.
  apply (X11_invalid_bytes_after_text_stop_the_run quiet_env cut_short_world
           (lit "# File path: /tmp/x/custom.db" ++ [LF])
           (default [] (utf8_encode (lit "# File path: /tmp/x/custom.db" ++ [LF])))
           [xc3]).
  - vm_compute. reflexivity.
  - reflexivity.
  - reflexivity.
Defined.

Lemma re_search_no_hash prev s :
  35 ∉ s → re_search_from file_path_re prev s = None.
Proof.
  revert prev. induction s as [|c s IH]; intros prev Hs.
  { cbn. by destruct (at_bol prev). }
  apply not_elem_of_cons in Hs as [Hc Hs].
  cbn [re_search_from]. rewrite (IH _ Hs).
  unfold file_path_re. cbn [app re_match].
  destruct (at_bol prev); [|done].
  by destruct (N.eqb_spec c 35).
Qed.

(** X12.  A readable descriptor in which no [#] occurs, an empty one in
    particular, gives no path: the run settles on [myapp.db] in the
    working directory. *)
Theorem X12_descriptor_without_hash_gives_default E w b content :
  connection_file w = Some (mk_file true b) →
  read_text b = inr content →
  35 ∉ content →
  _parse_db_path_from_connection_file (connection_file w) = inr None
  ∧ db_path_of w = inr (joinpath (Path_of_str (cwd w)) (lit "myapp.db"))
  ∧ (fails E (Sys_mkdir (Path_of_str (cwd w))) = false →
     fails E Sys_connect = false →
     ∃ rest,
       trace (main E w).1
       = trace w ++ EvConnect (Path_str (joinpath (Path_of_str (cwd w)) (lit "myapp.db")))
                    :: EvClose :: rest).
Proof.
  intros Hf Hr Hc.
  assert (_parse_db_path_from_connection_file (connection_file w) = inr None) as Hn.
  { rewrite Hf. unfold _parse_db_path_from_connection_file, open_read, os_path_exists.
    cbn [negb]. rewrite Hr. unfold re_search. by rewrite re_search_no_hash. }
  assert (db_path_of w = inr (joinpath (Path_of_str (cwd w)) (lit "myapp.db"))) as Hp.
  { unfold db_path_of. by rewrite Hn. }
  split; [done|]. split; [done|]. intros F1 F2.
  destruct (main_connected E w _ Hp) as (_ & _ & _ & (rest & Ht & _) & _); [|done|eauto].
  rewrite joinpath_myapp_db. unfold Path_parent. cbn.
  rewrite removelast_last. by destruct (Path_of_str (cwd w)).
Qed.

Lemma X12_descriptor_without_hash_gives_default_witness :
  db_path_of no_hash_world = inr (Path_of_str (lit "/srv/app/myapp.db")).
Proof.
  destruct (X12_descriptor_without_hash_gives_default quiet_env no_hash_world
              (default [] (utf8_encode (lit "File path: /tmp/x/custom.db" ++ [LF])))
              (lit "File path: /tmp/x/custom.db" ++ [LF]))
    as (_ & Hp & _).
  - reflexivity.
  - vm_compute. reflexivity.
  - apply (bool_decide_unpack _). vm_compute. exact I.
  - rewrite Hp. vm_compute. reflexivity.
Defined.

(** ** The lines the resolver accepts *)

Lemma re_match_lits l p prev s opened cap :
  ∃ prev', re_match (map RLit l ++ p) prev (l ++ s) opened cap
           = re_match p prev' s opened cap.
Proof.
  revert prev. induction l as [|a l IH]; intros prev; [by exists prev|].
  cbn [map app re_match]. rewrite N.eqb_refl. apply IH.
Qed.

Lemma re_match_after_capture_end pv t :
  re_match [RClose; RStar isspace; REol] pv [] (t ++ []) [] = Some t.
Proof.
  cbn. rewrite app_nil_r, Nat.sub_0_r. by rewrite firstn_all.
Qed.

(** A line [#], blanks, [File path:], blanks and a text captures the
    text up to the end of the line. *)
Lemma re_match_file_path_blanks prev ws1 ws2 t suffix :
  at_bol prev = true →
  Forall (fun c => isspace c = true) ws1 →
  Forall (fun c => isspace c = true) ws2 →
  LF ∉ t →
  (∃ c t', t = c :: t' ∧ isspace c = false) →
  suffix = [] ∨ (∃ rest, suffix = LF :: rest) →
  re_match file_path_re prev
    (35 :: ws1 ++ lit "File path:" ++ ws2 ++ t ++ suffix) [] [] = Some t.
Proof.
  intros Hb H1 H2 Hnl (c & t' & -> & Hc) Hsuf.
  apply not_elem_of_cons in Hnl as [Hc' Hnl].
  unfold file_path_re. cbn [app re_match]. rewrite Hb, N.eqb_refl.
  apply (greedy_longest isspace _ ws1); [done|done|]. intros pv1.
  destruct (re_match_lits (lit "File path:")
              [RStar isspace; ROpen; RPlus dot; RClose; RStar isspace; REol]
              pv1 (ws2 ++ c :: t' ++ suffix) [] []) as (pv2 & ->).
  cbn [re_match].
  apply (greedy_longest isspace _ ws2); [done|exact Hc|]. intros pv3.
  cbn [app].
  assert (dot c = true) as Hd by (unfold dot; by destruct (N.eqb_spec c LF)).
  rewrite Hd.
  apply (greedy_longest dot _ t' suffix).
  - apply Forall_forall. intros a Ha. unfold dot.
    destruct (N.eqb_spec a LF); [congruence|done].
  - by destruct Hsuf as [->|(rest & ->)].
  - intros pv. destruct Hsuf as [->|(rest & ->)].
    + apply (re_match_after_capture_end pv (c :: t')).
    + apply (re_match_after_capture pv (c :: t') rest).
Qed.

(** Text without [#] is passed over. *)
Lemma re_search_skip_no_hash pre s prev :
  35 ∉ pre →
  re_search_from file_path_re prev (pre ++ s)
  = re_search_from file_path_re (from_option Some prev (last pre)) s.
Proof.
  revert prev. induction pre as [|c pre IH]; intros prev Hs; [done|].
  apply not_elem_of_cons in Hs as [Hc Hs].
  cbn [app re_search_from]. rewrite (IH _ Hs).
  replace (re_match file_path_re prev (c :: pre ++ s) [] []) with (@None str).
  2:{ unfold file_path_re. cbn [app re_match].
      destruct (at_bol prev); [|done]. by destruct (N.eqb_spec c 35). }
  destruct pre as [|a pre']; [done|].
  change (last (c :: a :: pre')) with (last (a :: pre')).
  destruct (last (a :: pre')) eqn:HL; [done|]. by apply last_None in HL.
Qed.

Lemma lstrip_keeps x c : isspace c = false → lstrip (x ++ [c]) ≠ [].
Proof.
  intros Hc. induction x as [|a x IH]; cbn -[isspace].
  - by rewrite Hc.
  - by destruct (isspace a).
Qed.

Lemma strip_nonempty c t : isspace c = false → strip (c :: t) ≠ [].
Proof.
  intros Hc. unfold strip, rstrip.
  rewrite (lstrip_id (c :: t)) by (by intros ? [= <-]).
  cbn [rev]. intros H.
  apply (f_equal (@length char)) in H. rewrite length_rev in H.
  by apply nil_length_inv, lstrip_keeps in H.
Qed.

(** X13.  The first line that begins with [#] decides: when the text
    before it holds no [#] and ends a line, and the line is [#], any
    white space or none, [File path:], any white space or none, and a
    text that starts with something else than white space, the resolver
    gives that text without the white space at its end.  Nothing after
    that line is looked at. *)
Theorem X13_first_file_path_line_is_read w b pre ws1 ws2 t suffix :
  connection_file w = Some (mk_file true b) →
  read_text b = inr (pre ++ 35 :: ws1 ++ lit "File path:" ++ ws2 ++ t ++ suffix) →
  35 ∉ pre →
  pre = [] ∨ last pre = Some LF →
  Forall (fun c => isspace c = true) ws1 →
  Forall (fun c => isspace c = true) ws2 →
  LF ∉ t →
  (∃ c t', t = c :: t' ∧ isspace c = false) →
  suffix = [] ∨ (∃ rest, suffix = LF :: rest) →
  db_path_of w = inr (Path_of_str (strip t)).
Proof.
  intros Hf Hr Hpre Hlast H1 H2 Hnl Ht Hsuf.
  unfold db_path_of. rewrite Hf.
  rewrite (parse_recorded _ _ t Hr).
  - destruct Ht as (c & t' & -> & Hc).
    unfold str_eqb. by rewrite bool_decide_eq_false_2 by by apply strip_nonempty.
  - unfold re_search. rewrite re_search_skip_no_hash by done.
    apply re_search_from_match, re_match_file_path_blanks; [|done..].
    destruct Hlast as [-> | HL]; [done|].
    exact (f_equal (fun o => at_bol (from_option Some None o)) HL).
Qed.

Lemma X13_first_file_path_line_is_read_witness :
  db_path_of two_paths_world = inr (Path_of_str (lit "/tmp/x.db")).
Proof.
  refine (eq_trans
    (X13_first_file_path_line_is_read two_paths_world
       (default [] (utf8_encode two_paths_text))
       (lit "notes" ++ [LF]) [] [9] (lit "/tmp/x.db  ")
       (LF :: lit "# File path: /tmp/other.db" ++ [LF])
       _ _ _ _ _ _ _ _ _) _).
  - reflexivity.
  - vm_compute. reflexivity.
  - apply (bool_decide_unpack _). vm_compute. exact I.
  - right. reflexivity.
  - constructor.
  - repeat constructor.
  - apply (bool_decide_unpack _). vm_compute. exact I.
  - eexists _, _. split; [reflexivity|]. reflexivity.
  - right. eexists. reflexivity.
  - vm_compute. reflexivity.
Defined.
